(** * MissionRecord: closing a recording session

    A shallow embedding of [Malmo/src/MissionRecord.cpp]: the constructor,
    destructor, move operations, [close], [addFiles] and [addFile] of
    [malmo::MissionRecord], over an explicit model of what they act on: the
    file system (Boost.Filesystem), the tar archive, the output stream of the
    destination file, [std::cout] and the objects themselves. The calls into
    the file system fail where the operating system refuses them: the world
    says which accesses are refused, and where.

    Methods are computations in a state-and-exception monad; objects live in
    a heap indexed by address, so that [this != &record] can be modelled. *)

From Stdlib Require Import String Ascii List ZArith Lia Bool.
From stdpp Require Import base option list strings gmap.

Local Open Scope string_scope.
Local Open Scope list_scope.

(** ** Paths *)

(** The host platform fixes the separator [operator/] inserts. *)
Inductive platform := Posix | Windows.

Definition preferred_separator (os : platform) : ascii :=
  match os with
  | Posix => "/"%char
  | Windows => "\"%char
  end.

(** A [boost::filesystem::path], by its decomposition: the root (root name
    and root directory, empty for a path with no root) and the sequence of
    elements that iteration over the path yields after the root. *)
Record path := Path {
  root_path : string;
  elements : list string
}.

Definition dot : string := ".".
Definition dot_dot : string := "..".

Definition sep_string (os : platform) : string :=
  String (preferred_separator os) EmptyString.

Fixpoint join_elements (sep : string) (l : list string) : string :=
  match l with
  | [] => ""
  | [e] => e
  | e :: l' => e +:+ sep +:+ join_elements sep l'
  end.

(** [path::string()] *)
Definition path_string (os : platform) (p : path) : string :=
  root_path p +:+ join_elements (sep_string os) (elements p).

(** [operator/] with a file name on the right. *)
Definition path_append (p : path) (name : string) : path :=
  Path (root_path p) (elements p ++ [name]).

(** [path::relative_path()]: the path without its root. *)
Definition relative_path (p : path) : path :=
  Path "" (elements p).

Definition string_nth (n : nat) (s : string) : ascii :=
  match String.get n s with
  | Some c => c
  | None => Ascii.zero
  end.

(** The test of [path::normalize()] on the last element of the path built so
    far, before a [".."] removes it. *)
Definition normalize_cancels (os : platform) (lf : string) : bool :=
  (0 <? String.length lf)%nat
  && (negb (String.length lf =? 1)%nat
      || (negb (Ascii.eqb (string_nth 0 lf) ".")
          && negb (Ascii.eqb (string_nth 0 lf) "/")))
  && (negb (String.length lf =? 2)%nat
      || (negb (Ascii.eqb (string_nth 0 lf) ".")
          && negb (Ascii.eqb (string_nth 1 lf) ".")
          && match os with
             | Windows => negb (Ascii.eqb (string_nth 1 lf) ":")
             | Posix => true
             end)).

(** The loop of [path::normalize()] over the elements of a path without a
    root: [first] tells whether the element at hand is the first one, [temp]
    is the path built so far. *)
Fixpoint normalize_loop (os : platform) (first : bool) (temp rest : list string)
  : list string :=
  match rest with
  | [] => temp
  | e :: rest' =>
      let is_last := match rest' with [] => true | _ => false end in
      if String.eqb e dot && negb first && negb is_last
      then normalize_loop os false temp rest'
      else
        match List.last (map Some temp) None with
        | Some lf =>
            if String.eqb e dot_dot && normalize_cancels os lf
            then
              let temp' := removelast temp in
              let temp'' :=
                match temp', rest' with
                | [], [d] => if String.eqb d dot then [dot] else temp'
                | _, _ => temp'
                end in
              normalize_loop os false temp'' rest'
            else normalize_loop os false (temp ++ [e]) rest'
        | None => normalize_loop os false (temp ++ [e]) rest'
        end
  end.

(** [path::normalize()], for a path without a root, which is all [addFile]
    applies it to. An empty path stays empty; a path that cancels out
    becomes ["."]. *)
Definition normalize (os : platform) (p : path) : path :=
  match elements p with
  | [] => p
  | _ =>
      match normalize_loop os true [] (elements p) with
      | [] => Path (root_path p) [dot]
      | l => Path (root_path p) l
      end
  end.

(** [std::replace(begin, end, a, b)] on a string. *)
Fixpoint replace (a b : ascii) (s : string) : string :=
  match s with
  | EmptyString => EmptyString
  | String c s' => String (if Ascii.eqb c a then b else c) (replace a b s')
  end.

(** [s.substr(pos, n)]; [None] stands for the [std::out_of_range] that
    [substr] throws when [pos] exceeds the size. *)
Definition substr (pos n : nat) (s : string) : option string :=
  if (String.length s <? pos)%nat then None
  else Some (String.substring pos n s).

(** Parsing of a path given as a string, as the operating system does when a
    file is opened by name: separators split the string, a leading separator
    is the root directory. The backslash separates on Windows only. *)
Definition is_separator (os : platform) (c : ascii) : bool :=
  Ascii.eqb c "/"
  || match os with Windows => Ascii.eqb c "\" | Posix => false end.

Fixpoint split_elements (os : platform) (cur : string) (s : string)
  : list string :=
  match s with
  | EmptyString => match cur with EmptyString => [] | _ => [cur] end
  | String c s' =>
      if is_separator os c
      then match cur with
           | EmptyString => split_elements os EmptyString s'
           | _ => cur :: split_elements os EmptyString s'
           end
      else split_elements os (cur +:+ String c EmptyString) s'
  end.

Definition parse_path (os : platform) (s : string) : path :=
  match s with
  | String c s' =>
      if is_separator os c
      then Path (String c EmptyString) (split_elements os EmptyString s')
      else Path "" (split_elements os EmptyString s)
  | EmptyString => Path "" []
  end.


(** ** The file system *)

(** What a file holds: plain bytes, or a gzip-compressed tar archive, kept as
    the sequence of its members (name in the archive, contents). *)
#[warnings="-register-all"]
Inductive file_content :=
  | Bytes (data : string)
  | GzipTar (members : list (string * file_content)).

(** A directory lists named entries in the order iteration yields them. An
    entry is a regular file (which may be unreadable), a directory, or a
    dangling entry: a name that is listed but that [exists] does not find
    (a symbolic link whose target is gone, an entry that vanished). *)
#[warnings="-register-all"]
Inductive node :=
  | File (readable : bool) (content : file_content)
  | Dir (entries : list (string * node))
  | Dangling.

Fixpoint find_entry (name : string) (es : list (string * node)) : option node :=
  match es with
  | [] => None
  | (k, n) :: es' => if String.eqb k name then Some n else find_entry name es'
  end.

(** The node a resolved location (the names from the root down) designates. *)
Fixpoint lookup_node (n : node) (loc : list string) : option node :=
  match loc with
  | [] => Some n
  | c :: loc' =>
      match n with
      | Dir es =>
          match find_entry c es with
          | Some n' => lookup_node n' loc'
          | None => None
          end
      | _ => None
      end
  end.

Definition remove_entry (name : string) (es : list (string * node))
  : list (string * node) :=
  List.filter (fun e => negb (String.eqb (fst e) name)) es.

(** Apply [f] to the first entry called [name]. *)
Fixpoint update_entry (f : node -> node) (name : string)
  (es : list (string * node)) : list (string * node) :=
  match es with
  | [] => []
  | (k, n) :: es' =>
      if String.eqb k name then (k, f n) :: es'
      else (k, n) :: update_entry f name es'
  end.

(** Set the entry called [name] to [n], adding it when it is absent. *)
Fixpoint put_entry (name : string) (n : node) (es : list (string * node))
  : list (string * node) :=
  match es with
  | [] => [(name, n)]
  | (k, m) :: es' =>
      if String.eqb k name then (k, n) :: es'
      else (k, m) :: put_entry name n es'
  end.

(** Delete the entry at [loc] with everything below it. The root itself is
    not an entry of any directory and is left alone. *)
Fixpoint remove_node (loc : list string) (n : node) : node :=
  match loc with
  | [] => n
  | [c] =>
      match n with
      | Dir es => Dir (remove_entry c es)
      | _ => n
      end
  | c :: loc' =>
      match n with
      | Dir es => Dir (update_entry (remove_node loc') c es)
      | _ => n
      end
  end.

(** Set the entry at [loc] to [new]; the directory that holds it must exist. *)
Fixpoint put_node (loc : list string) (new : node) (n : node) : node :=
  match loc with
  | [] => n
  | [c] =>
      match n with
      | Dir es => Dir (put_entry c new es)
      | _ => n
      end
  | c :: loc' =>
      match n with
      | Dir es => Dir (update_entry (put_node loc' new) c es)
      | _ => n
      end
  end.

(** Create the directories along [loc] that are missing; [None] when a name
    on the way is taken by something that is not a directory. *)
Fixpoint make_directories (loc : list string) (n : node) : option node :=
  match loc with
  | [] => match n with Dir _ => Some n | _ => None end
  | c :: loc' =>
      match n with
      | Dir es =>
          match find_entry c es with
          | Some n' =>
              match make_directories loc' n' with
              | Some n'' => Some (Dir (put_entry c n'' es))
              | None => None
              end
          | None =>
              match make_directories loc' (Dir []) with
              | Some n'' => Some (Dir (put_entry c n'' es))
              | None => None
              end
          end
      | _ => None
      end
  end.

(** Resolution of a path against the current directory: ["."] stays,
    [".."] goes up, any other element goes down. *)
Definition resolve_step (loc : list string) (e : string) : list string :=
  if String.eqb e dot then loc
  else if String.eqb e dot_dot then removelast loc
  else loc ++ [e].

Definition resolve (cwd : list string) (p : path) : list string :=
  fold_left resolve_step (elements p)
    (match root_path p with EmptyString => cwd | _ => [] end).

Fixpoint node_height (n : node) : nat :=
  match n with
  | Dir es =>
      S ((fix entries_height (l : list (string * node)) : nat :=
            match l with
            | [] => 0
            | (_, m) :: l' => Nat.max (node_height m) (entries_height l')
            end) es)
  | _ => 0
  end.

(** What the operating system can refuse at a location (for want of a
    permission, on a busy or read-only entry): to report the status of the
    entry, to open the directory for listing, to remove the entry, to open
    the file for writing. *)
Inductive access := Status | Listing | Removing | Writing.

Definition access_eqb (a b : access) : bool :=
  match a, b with
  | Status, Status | Listing, Listing | Removing, Removing
  | Writing, Writing => true
  | _, _ => false
  end.

(** Whether the access [a] at the location [loc] is among the refused. *)
Definition refuses (dn : list (access * list string)) (a : access)
  (loc : list string) : bool :=
  existsb
    (fun d =>
       access_eqb (fst d) a && (if decide (snd d = loc) then true else false))
    dn.

(** What a recursive deletion leaves of the node [n] at the location [loc];
    [None] when all of it is deleted. A directory is listed and its entries
    are deleted in the order of the listing, then the directory itself; the
    first refusal ends the deletion, and what was not reached stays. *)
Fixpoint purge (dn : list (access * list string)) (loc : list string) (n : node)
  : option node :=
  match n with
  | Dir es =>
      if refuses dn Listing loc then Some n
      else
        match
          (fix purge_entries (l : list (string * node))
             : list (string * node) :=
             match l with
             | [] => []
             | (name, m) :: l' =>
                 match purge dn (loc ++ [name]) m with
                 | None => purge_entries l'
                 | Some m' => (name, m') :: l'
                 end
             end) es
        with
        | [] => if refuses dn Removing loc then Some (Dir []) else None
        | es' => Some (Dir es')
        end
  | _ => if refuses dn Removing loc then Some n else None
  end.

(** The deletion of the entries of a directory, one after the other, by
    [delete]. *)
Fixpoint purge_list (delete : string -> node -> option node)
  (l : list (string * node)) : list (string * node) :=
  match l with
  | [] => []
  | (name, m) :: l' =>
      match delete name m with
      | None => purge_list delete l'
      | Some m' => (name, m') :: l'
      end
  end.

(** Set the node at [loc], which may be the root, to [new]. *)
Definition set_node (loc : list string) (new : node) (n : node) : node :=
  match loc with
  | [] => new
  | _ => put_node loc new n
  end.

(** ** Objects, the world and the monad *)

(** The fields of [MissionRecordSpec] that [MissionRecord] reads. *)
Record MissionRecordSpec := {
  is_recording : bool;
  is_recording_mp4 : bool;
  is_recording_observations : bool;
  is_recording_rewards : bool;
  is_recording_commands : bool;
  mp4_path : string;
  mp4_bit_rate : Z;
  mp4_fps : Z;
  observations_path : string;
  rewards_path : string;
  commands_path : string;
  mission_init_path : string;
  temp_dir : path;
  destination : string
}.

(** Modelled from the spec: the default constructor [MissionRecordSpec()],
    which the source calls and whose definition is in another file. The spec
    says a default-constructed value has recording switched off and is the
    inert value left behind by a move; the other fields are taken empty. *)
Definition default_spec : MissionRecordSpec := {|
  is_recording := false;
  is_recording_mp4 := false;
  is_recording_observations := false;
  is_recording_rewards := false;
  is_recording_commands := false;
  mp4_path := "";
  mp4_bit_rate := 0;
  mp4_fps := 0;
  observations_path := "";
  rewards_path := "";
  commands_path := "";
  mission_init_path := "";
  temp_dir := Path "" [];
  destination := ""
|}.

(** The data members of [MissionRecord]. *)
Record MissionRecord := {
  is_closed : bool;
  spec : MissionRecordSpec
}.

Definition set_spec (s : MissionRecordSpec) (r : MissionRecord) : MissionRecord :=
  {| is_closed := is_closed r; spec := s |}.

Definition set_is_closed (b : bool) (r : MissionRecord) : MissionRecord :=
  {| is_closed := b; spec := spec r |}.

(** The calls that change the file system, at the location they resolve to. *)
Inductive fs_call :=
  | CreateDirectories (loc : list string)
  | OpenForWriting (loc : list string)
  | RemoveAll (loc : list string).

(** Everything a method can read or change. [denied] lists the accesses
    the operating system refuses, each at the location it is refused at. *)
Record World := {
  os : platform;
  cwd : list string;
  fs : node;
  denied : list (access * list string);
  fs_calls : list fs_call;
  cout : list string;
  heap : gmap nat MissionRecord
}.

Definition set_fs (f : node) (w : World) : World :=
  {| os := os w; cwd := cwd w; fs := f; denied := denied w;
     fs_calls := fs_calls w; cout := cout w; heap := heap w |}.

Definition add_call (c : fs_call) (w : World) : World :=
  {| os := os w; cwd := cwd w; fs := fs w; denied := denied w;
     fs_calls := fs_calls w ++ [c]; cout := cout w; heap := heap w |}.

Definition add_line (l : string) (w : World) : World :=
  {| os := os w; cwd := cwd w; fs := fs w; denied := denied w;
     fs_calls := fs_calls w; cout := cout w ++ [l]; heap := heap w |}.

Definition set_heap (h : gmap nat MissionRecord) (w : World) : World :=
  {| os := os w; cwd := cwd w; fs := fs w; denied := denied w;
     fs_calls := fs_calls w; cout := cout w; heap := h |}.

Definition is_denied (w : World) (a : access) (loc : list string) : bool :=
  refuses (denied w) a loc.

(** A C++ exception: one derived from [std::exception], with its [what()],
    or anything else that can be thrown. *)
Inductive exn :=
  | StdException (what : string)
  | OtherException.

(** How a call ends: it returns, it throws, or it has no defined result (a
    method called on an address that holds no object, a recursion cut short
    by its depth bound). *)
Inductive outcome (A : Type) :=
  | Ok (a : A)
  | Throw (e : exn)
  | Undefined.

Arguments Ok {A} a.
Arguments Throw {A} e.
Arguments Undefined {A}.

Definition M (A : Type) : Type := World -> outcome A * World.

Definition ret {A} (a : A) : M A := fun w => (Ok a, w).

Definition bind {A B} (m : M A) (k : A -> M B) : M B :=
  fun w =>
    match m w with
    | (Ok a, w') => k a w'
    | (Throw e, w') => (Throw e, w')
    | (Undefined, w') => (Undefined, w')
    end.

Definition throw {A} (e : exn) : M A := fun w => (Throw e, w).

Definition undefined {A} : M A := fun w => (Undefined, w).

(** [try body catch (const std::exception& e) h_std(e.what()) catch (...) h_any] *)
Definition try_catch_all {A} (body : M A) (h_std : string -> M A) (h_any : M A)
  : M A :=
  fun w =>
    match body w with
    | (Throw (StdException what), w') => h_std what w'
    | (Throw OtherException, w') => h_any w'
    | r => r
    end.

(** [try body catch (const std::exception& e) h_std(e.what())] *)
Definition try_catch_std {A} (body : M A) (h_std : string -> M A) : M A :=
  fun w =>
    match body w with
    | (Throw (StdException what), w') => h_std what w'
    | r => r
    end.

Declare Scope monad_scope.
Delimit Scope monad_scope with monad.
Notation "x <- c1 ;; c2" := (bind c1 (fun x => c2))
  (at level 100, c1 at next level, right associativity) : monad_scope.
Notation "c1 ;;; c2" := (bind c1 (fun _ => c2))
  (at level 100, right associativity) : monad_scope.
Local Open Scope monad_scope.

(** [std::cout << ... << std::endl] *)
Definition print_line (l : string) : M unit :=
  fun w => (Ok tt, add_line l w).

(** Reading and writing the object at address [this]. *)
Definition load (this : nat) : M MissionRecord :=
  fun w =>
    match heap w !! this with
    | Some r => (Ok r, w)
    | None => (Undefined, w)
    end.

Definition store (this : nat) (r : MissionRecord) : M unit :=
  fun w => (Ok tt, set_heap (<[this := r]> (heap w)) w).

Definition get_os : M platform := fun w => (Ok (os w), w).

(** ** Boost.Filesystem and the streams *)

Definition node_exists (n : option node) : bool :=
  match n with
  | Some (File _ _) | Some (Dir _) => true
  | _ => false
  end.

Definition node_is_directory (n : option node) : bool :=
  match n with
  | Some (Dir _) => true
  | _ => false
  end.

Definition stat (w : World) (p : path) : option node :=
  lookup_node (fs w) (resolve (cwd w) p).

(** [boost::filesystem::status(p)] fails on an entry that is there and that
    the operating system refuses to report on; an entry that is not there is
    reported as not found, which is no failure. *)
Definition status_refused (w : World) (p : path) : bool :=
  node_exists (stat w p) && is_denied w Status (resolve (cwd w) p).

Definition status_error (o : platform) (p : path) : exn :=
  StdException ("boost::filesystem::status: " +:+ path_string o p).

(** [boost::filesystem::exists(p)], which is [exists(status(p))] and throws
    the [filesystem_error] of [status]. *)
Definition fs_exists (p : path) : M bool :=
  fun w =>
    if status_refused w p then (Throw (status_error (os w) p), w)
    else (Ok (node_exists (stat w p)), w).

(** [boost::filesystem::is_directory(p)], which is
    [is_directory(status(p))]. *)
Definition fs_is_directory (p : path) : M bool :=
  fun w =>
    if status_refused w p then (Throw (status_error (os w) p), w)
    else (Ok (node_is_directory (stat w p)), w).

Definition is_dot_name (name : string) : bool :=
  String.eqb name dot || String.eqb name dot_dot.

Definition iterator_error (o : platform) (p : path) : exn :=
  StdException
    ("boost::filesystem::directory_iterator::construct: " +:+ path_string o p).

(** [boost::filesystem::directory_iterator(p)], as the sequence of paths it
    yields: [p / name] for the entries of the directory, without ["."] and
    [".."]. The constructor throws a [filesystem_error] when the directory
    cannot be opened: on anything but a directory, and on a directory the
    operating system refuses to list. *)
Definition directory_iterator (p : path) : M (list path) :=
  fun w =>
    match stat w p with
    | Some (Dir es) =>
        if is_denied w Listing (resolve (cwd w) p)
        then (Throw (iterator_error (os w) p), w)
        else
          (Ok (map (path_append p)
                 (List.filter (fun name => negb (is_dot_name name)) (map fst es))),
           w)
    | _ => (Throw (iterator_error (os w) p), w)
    end.

(** [boost::filesystem::create_directories(p)] *)
Definition create_directories (p : path) : M unit :=
  fun w =>
    let loc := resolve (cwd w) p in
    match make_directories loc (fs w) with
    | Some f => (Ok tt, set_fs f (add_call (CreateDirectories loc) w))
    | None =>
        (Throw (StdException
           ("boost::filesystem::create_directories: " +:+ path_string (os w) p)),
         add_call (CreateDirectories loc) w)
    end.

(** Whether the last element of a path is ["."] or [".."]: the operating
    system refuses to remove a directory named that way. *)
Definition ends_in_dot (p : path) : bool :=
  match List.last (map Some (elements p)) None with
  | Some e => is_dot_name e
  | None => false
  end.

Definition is_nil {A : Type} (l : list A) : bool :=
  match l with
  | [] => true
  | _ => false
  end.

(** A directory without its entries; anything else as it is. *)
Definition emptied (n : node) : node :=
  match n with
  | Dir _ => Dir []
  | _ => n
  end.

Definition remove_error (o : platform) (p : path) : exn :=
  StdException ("boost::filesystem::remove_all: " +:+ path_string o p).

(** [boost::filesystem::remove_all(p)]: there is nothing to do when the entry
    does not exist; otherwise what is below it is deleted, then the entry
    itself, and the first deletion that fails ends the call with a
    [filesystem_error], what was deleted until then being gone. The deletion
    of the entry itself fails, after that of its contents, when the path ends
    in ["."] or [".."] and when it is the root of the file system. *)
Definition remove_all (p : path) : M unit :=
  fun w =>
    let loc := resolve (cwd w) p in
    let w' := add_call (RemoveAll loc) w in
    match lookup_node (fs w) loc with
    | None => (Ok tt, set_fs (remove_node loc (fs w)) w')
    | Some n =>
        match purge (denied w) loc n with
        | Some n' =>
            (Throw (remove_error (os w) p), set_fs (set_node loc n' (fs w)) w')
        | None =>
            if ends_in_dot p || is_nil loc
            then
              (Throw (remove_error (os w) p),
               set_fs (set_node loc (emptied n) (fs w)) w')
            else (Ok tt, set_fs (remove_node loc (fs w)) w')
        end
    end.

(** Whether a file can be opened for writing at a location of the tree:
    there is a directory to hold it and the name is not that of a
    directory. *)
Definition can_open_for_writing (f : node) (loc : list string) : bool :=
  match loc with
  | [] => false
  | _ =>
      node_is_directory (lookup_node f (removelast loc))
      && negb (node_is_directory (lookup_node f loc))
  end.

(** Whether opening a file for writing at a location succeeds: the tree
    allows it and the operating system does not refuse. *)
Definition opens (w : World) (loc : list string) : bool :=
  can_open_for_writing (fs w) loc && negb (is_denied w Writing loc).

(** [std::ofstream file(name, std::ofstream::binary)]: opening creates the
    file, or empties the one there is. The result is [!file.fail()]. *)
Definition ofstream_open (name : string) : M bool :=
  fun w =>
    let loc := resolve (cwd w) (parse_path (os w) name) in
    if opens w loc
    then (Ok true, set_fs (put_node loc (File true (Bytes "")) (fs w))
                     (add_call (OpenForWriting loc) w))
    else (Ok false, add_call (OpenForWriting loc) w).

(** [boost::iostreams::copy(in, file)] for the stream opened on [name]: the
    compressed archive becomes the contents of the file. *)
Definition iostreams_copy (gz : file_content) (name : string) : M unit :=
  fun w =>
    let loc := resolve (cwd w) (parse_path (os w) name) in
    (Ok tt, set_fs (put_node loc (File true gz) (fs w)) w).

(** The archive under construction, [lindenb::io::Tar] on its stream: the
    members written so far. *)
Definition Tar : Type := list (string * file_content).

(** Modelled from the spec: [Tar::putFile(filename, nameInArchive)], defined
    in another file of the repository. Per the spec, adding a file fails when
    the file is unreadable or has vanished, and the failure is an exception
    that [close] catches as a [std::exception]; otherwise the file's bytes
    are appended under the given name. The file is named here by the path
    whose [string()] the source passes. *)
Definition putFile (archive : Tar) (filename : path) (nameInArchive : string)
  : M Tar :=
  fun w =>
    match stat w filename with
    | Some (File true c) => (Ok (archive ++ [(nameInArchive, c)]), w)
    | _ =>
        (Throw (StdException ("Cannot open " +:+ path_string (os w) filename)), w)
    end.

(** Modelled from the spec: [Tar::finish()] writes the terminating structure
    of the archive and adds no member. *)
Definition finish (archive : Tar) : Tar := archive.

(** The gzip filter pushed on the stream of the finished archive. *)
Definition gzip_compressor (archive : Tar) : file_content := GzipTar archive.

(** A range-based [for] whose body updates a local state. *)
Fixpoint for_each {A S} (body : S -> A -> M S) (l : list A) (s : S) : M S :=
  match l with
  | [] => ret s
  | a :: l' => s' <- body s a ;; for_each body l' s'
  end.

(** ** The methods of MissionRecord *)

(** [MissionRecord::MissionRecord(const MissionRecordSpec& spec)], building
    the object at address [this]. *)
Definition MissionRecord_ctor (this : nat) (sp : MissionRecordSpec) : M unit :=
  store this {| is_closed := false; spec := sp |} ;;;
  if is_recording sp
  then create_directories (temp_dir sp)
  else ret tt.

(** The name [addFile] gives a file inside the archive. *)
Definition file_name_in_archive (o : platform) (p : path) : option string :=
  let name := path_string o (normalize o (relative_path p)) in
  let name := replace "\" "/" name in
  substr 2 (String.length name) name.

(** [MissionRecord::addFile] *)
Definition addFile (archive : Tar) (p : path) : M Tar :=
  o <- get_os ;;
  match file_name_in_archive o p with
  | Some name => putFile archive p name
  | None => throw (StdException "basic_string::substr")
  end.

Definition missing_directory_message (o : platform) (directory : path) : string :=
  "Attempt to write to non-existent directory: " +:+ path_string o directory.

(** [MissionRecord::addFiles]. The recursion follows the directory tree; the
    first argument bounds its depth. *)
Fixpoint addFiles_fuel (fuel : nat) (fileList : list path) (directory : path)
  : M (list path) :=
  match fuel with
  | O => undefined
  | S fuel' =>
      found <- fs_exists directory ;;
      if negb found
      then
        o <- get_os ;;
        throw (StdException (missing_directory_message o directory))
      else
        dirIter <- directory_iterator directory ;;
        for_each
          (fun fileList entry =>
             found <- fs_exists entry ;;
             if found
             then
               is_dir <- fs_is_directory entry ;;
               if is_dir
               then addFiles_fuel fuel' fileList entry
               else ret (fileList ++ [entry])
             else ret fileList)
          dirIter fileList
  end.

(** The depth bound is taken from the file system at hand: one more than
    the height of its tree always suffices ([addFiles_cases]). *)
Definition addFiles (fileList : list path) (directory : path) : M (list path) :=
  fun w => addFiles_fuel (S (node_height (fs w))) fileList directory w.

Definition archive_warning (o : platform) (file : path) (what : string) : string :=
  "[warning] Unable to archive " +:+ path_string o file +:+ ": " +:+ what.

Definition output_warning (dest : string) : string :=
  "[warning] Unable to write recording to output file " +:+ dest.

(** [MissionRecord::close] *)
Definition close (this : nat) : M unit :=
  r <- load this ;;
  if negb (is_recording (spec r)) || is_closed r
  then ret tt
  else
    fileList <- addFiles [] (temp_dir (spec r)) ;;
    (if (0 <? length fileList)%nat
     then
       tarball <-
         for_each
           (fun tarball file =>
              try_catch_std (addFile tarball file)
                (fun what =>
                   o <- get_os ;;
                   print_line (archive_warning o file what) ;;;
                   ret tarball))
           fileList ([] : Tar) ;;
       let out := finish tarball in
       opened <- ofstream_open (destination (spec r)) ;;
       if negb opened
       then print_line (output_warning (destination (spec r)))
       else iostreams_copy (gzip_compressor out) (destination (spec r))
     else ret tt) ;;;
    remove_all (temp_dir (spec r)) ;;;
    r' <- load this ;;
    store this (set_is_closed true r').

(** [MissionRecord::~MissionRecord] *)
Definition MissionRecord_dtor (this : nat) : M unit :=
  try_catch_all
    (r <- load this ;;
     if negb (is_closed r) then close this else ret tt)
    (fun what => print_line ("Exception in closing of MissionRecord: " +:+ what))
    (print_line "Unknown exception in closing of MissionRecord.").

(** [MissionRecord::MissionRecord(MissionRecord&& record)], building the
    object at address [this]. *)
Definition MissionRecord_move_ctor (this record : nat) : M unit :=
  r <- load record ;;
  store this {| is_closed := is_closed r; spec := spec r |} ;;;
  r' <- load record ;;
  store record (set_spec default_spec r').

(** [MissionRecord::operator=(MissionRecord&& record)] *)
Definition operator_assign (this record : nat) : M unit :=
  if negb (this =? record)%nat
  then
    r <- load record ;;
    t <- load this ;;
    store this (set_is_closed (is_closed r) t) ;;;
    r <- load record ;;
    t <- load this ;;
    store this (set_spec (spec r) t) ;;;
    r' <- load record ;;
    store record (set_spec default_spec r')
  else ret tt.

(** The accessors. *)
Definition isRecording (r : MissionRecord) : bool := is_recording (spec r).
Definition isRecordingMP4 (r : MissionRecord) : bool := is_recording_mp4 (spec r).
Definition isRecordingObservations (r : MissionRecord) : bool :=
  is_recording_observations (spec r).
Definition isRecordingRewards (r : MissionRecord) : bool :=
  is_recording_rewards (spec r).
Definition isRecordingCommands (r : MissionRecord) : bool :=
  is_recording_commands (spec r).
Definition getMP4Path (r : MissionRecord) : string := mp4_path (spec r).
Definition getMP4BitRate (r : MissionRecord) : Z := mp4_bit_rate (spec r).
Definition getMP4FramesPerSecond (r : MissionRecord) : Z := mp4_fps (spec r).
Definition getObservationsPath (r : MissionRecord) : string :=
  observations_path (spec r).
Definition getRewardsPath (r : MissionRecord) : string := rewards_path (spec r).
Definition getCommandsPath (r : MissionRecord) : string := commands_path (spec r).
Definition getMissionInitPath (r : MissionRecord) : string :=
  mission_init_path (spec r).

(** ** What the claims are stated with *)

(** Whether [loc'] is [loc] or lies below it. *)
Fixpoint is_under (loc loc' : list string) : bool :=
  match loc, loc' with
  | [], _ => true
  | c :: l, c' :: l' => String.eqb c c' && is_under l l'
  | _ :: _, [] => false
  end.

Fixpoint distinct (l : list string) : bool :=
  match l with
  | [] => true
  | x :: l' => negb (existsb (String.eqb x) l') && distinct l'
  end.

(** A well-formed tree: the names in a directory are distinct. *)
Fixpoint well_formed (n : node) : bool :=
  match n with
  | Dir es =>
      distinct (map fst es)
      && (fix all (l : list (string * node)) : bool :=
            match l with
            | [] => true
            | (_, m) :: l' => well_formed m && all l'
            end) es
  | _ => true
  end.

(** The regular files below a directory [n] reached by the path [p], at any
    depth, in the order of the directory listings. *)
Fixpoint files_under (p : path) (n : node) : list path :=
  match n with
  | Dir es =>
      (fix go (l : list (string * node)) : list path :=
         match l with
         | [] => []
         | (name, m) :: l' =>
             (if is_dot_name name then []
              else
                match m with
                | File _ _ => [path_append p name]
                | Dir _ => files_under (path_append p name) m
                | Dangling => []
                end) ++ go l'
         end) es
  | _ => []
  end.

(** The pure reading of [addFiles_fuel]: what a directory contributes to the
    list, each listed name being looked up again as the source does. *)
Fixpoint collect (fuel : nat) (p : path) (n : node) : list path :=
  match fuel with
  | O => []
  | S fuel' =>
      match n with
      | Dir es =>
          flat_map
            (fun name =>
               match find_entry name es with
               | Some (File _ _) => [path_append p name]
               | Some (Dir es') => collect fuel' (path_append p name) (Dir es')
               | _ => []
               end)
            (List.filter (fun name => negb (is_dot_name name)) (map fst es))
      | _ => []
      end
  end.

(** The member [addFile] appends for a file, when adding it succeeds. *)
Definition member_of (w : World) (file : path) : option (string * file_content) :=
  match file_name_in_archive (os w) file, stat w file with
  | Some name, Some (File true c) => Some (name, c)
  | _, _ => None
  end.

(** The [what()] of the exception [addFile] throws for a file it cannot add. *)
Definition add_failure (w : World) (file : path) : string :=
  match file_name_in_archive (os w) file with
  | Some _ => "Cannot open " +:+ path_string (os w) file
  | None => "basic_string::substr"
  end.

(** The warnings the loop of [close] prints for a list of files. *)
Definition archive_warnings (w : World) (files : list path) : list string :=
  flat_map
    (fun file =>
       match member_of w file with
       | Some _ => []
       | None => [archive_warning (os w) file (add_failure w file)]
       end)
    files.

Definition add_lines (ls : list string) (w : World) : World :=
  {| os := os w; cwd := cwd w; fs := fs w; denied := denied w;
     fs_calls := fs_calls w; cout := cout w ++ ls; heap := heap w |}.

(** The archive found at a destination, if there is one. *)
Definition archive_at (w : World) (dest : string)
  : option (list (string * file_content)) :=
  match lookup_node (fs w) (resolve (cwd w) (parse_path (os w) dest)) with
  | Some (File _ (GzipTar members)) => Some members
  | _ => None
  end.

(** The path of a file relative to a root directory, with forward slashes:
    the name the specification expects inside the archive. *)
Fixpoint strip_prefix (root l : list string) : option (list string) :=
  match root, l with
  | [], _ => Some l
  | r :: root', x :: l' => if String.eqb r x then strip_prefix root' l' else None
  | _ :: _, [] => None
  end.

Definition relative_to (root file : path) : option string :=
  match strip_prefix (elements root) (elements file) with
  | Some l => Some (join_elements "/" l)
  | None => None
  end.

(** The path reached from [p] by going down through [names]. *)
Definition below (p : path) (names : list string) : path :=
  fold_left path_append names p.

(** Whether the character [c] occurs in [s]. *)
Fixpoint has_char (c : ascii) (s : string) : bool :=
  match s with
  | EmptyString => false
  | String d s' => Ascii.eqb d c || has_char c s'
  end.

(** An ordinary file name: not ["."], not [".."], and without a backslash. *)
Definition plain_name (s : string) : bool :=
  negb (is_dot_name s) && negb (has_char "\" s).

(** A tree in which every entry has an ordinary name. *)
Fixpoint plain_tree (n : node) : bool :=
  match n with
  | Dir es =>
      (fix all (l : list (string * node)) : bool :=
         match l with
         | [] => true
         | (name, m) :: l' => plain_name name && plain_tree m && all l'
         end) es
  | _ => true
  end.

(** The world after the block of [close] that builds and writes the archive,
    for the file list [files] and the destination [dest]. *)
Definition written_world (dest : string) (files : list path) (w : World) : World :=
  if (0 <? length files)%nat
  then
    let w1 := add_lines (archive_warnings w files) w in
    let loc := resolve (cwd w) (parse_path (os w) dest) in
    if opens w loc
    then
      set_fs
        (put_node loc
           (File true (gzip_compressor (finish (omap (member_of w) files))))
           (put_node loc (File true (Bytes "")) (fs w)))
        (add_call (OpenForWriting loc) w1)
    else add_line (output_warning dest) (add_call (OpenForWriting loc) w1)
  else w.

(** The world after a [close] that ran to its end on the object [r] at
    [this], from the world [w1] the archive block left. *)
Definition closed_world (this : nat) (r : MissionRecord) (w1 : World) : World :=
  let loc := resolve (cwd w1) (temp_dir (spec r)) in
  set_heap (<[this := set_is_closed true r]> (heap w1))
    (set_fs (remove_node loc (fs w1)) (add_call (RemoveAll loc) w1)).

Definition is_remove_all (loc : list string) (c : fs_call) : bool :=
  match c with
  | RemoveAll l => if decide (l = loc) then true else false
  | _ => false
  end.

(** Nothing is refused at the location [loc] or below it. *)
Definition unhindered (w : World) (loc : list string) : bool :=
  forallb (fun d => negb (is_under loc (snd d))) (denied w).

(** What an entry is after a change that leaves it alone: a regular file is
    the same file, a directory is a directory still, and what was not there
    is not there. *)
Definition same_entry (before after : option node) : Prop :=
  match before with
  | Some (File rd c) => after = Some (File rd c)
  | Some (Dir _) => node_is_directory after = true
  | Some Dangling => after = Some Dangling
  | None => after = None
  end.

(** The ways [close] ends on the object [r] at [this] in the world [w]:
    at once; with what [addFiles] throws, the world being as it was; with
    what [remove_all] throws, after the archive block, the object being as it
    was; or after everything is done. *)
Inductive close_run (this : nat) (w : World) (r : MissionRecord)
  : outcome unit * World -> Prop :=
  | close_run_noop :
      is_recording (spec r) = false \/ is_closed r = true ->
      close_run this w r (Ok tt, w)
  | close_run_unlisted (msg : string) :
      is_recording (spec r) = true ->
      is_closed r = false ->
      addFiles [] (temp_dir (spec r)) w = (Throw (StdException msg), w) ->
      close_run this w r (Throw (StdException msg), w)
  | close_run_unremoved (listed : list path) (remnant : node) :
      is_recording (spec r) = true ->
      is_closed r = false ->
      addFiles [] (temp_dir (spec r)) w = (Ok listed, w) ->
      remove_all (temp_dir (spec r))
        (written_world (destination (spec r)) listed w)
      = (Throw (remove_error (os w) (temp_dir (spec r))),
         set_fs remnant
           (add_call (RemoveAll (resolve (cwd w) (temp_dir (spec r))))
              (written_world (destination (spec r)) listed w))) ->
      (forall q,
         is_under (resolve (cwd w) (temp_dir (spec r))) q = false ->
         same_entry
           (lookup_node (fs (written_world (destination (spec r)) listed w)) q)
           (lookup_node remnant q)) ->
      close_run this w r
        (Throw (remove_error (os w) (temp_dir (spec r))),
         set_fs remnant
           (add_call (RemoveAll (resolve (cwd w) (temp_dir (spec r))))
              (written_world (destination (spec r)) listed w)))
  | close_run_done (listed : list path) :
      is_recording (spec r) = true ->
      is_closed r = false ->
      addFiles [] (temp_dir (spec r)) w = (Ok listed, w) ->
      resolve (cwd w) (temp_dir (spec r)) <> [] ->
      close_run this w r
        (Ok tt,
         closed_world this r (written_world (destination (spec r)) listed w)).

(** How many times [remove_all] was called on a location. *)
Definition removals (loc : list string) (w : World) : nat :=
  length (List.filter (is_remove_all loc) (fs_calls w)).

(** ** Worked examples *)

(** A recording session whose temporary directory is
    [./mission_records/u1], as the example of the specification has it. *)
Definition ex_spec : MissionRecordSpec := {|
  is_recording := true;
  is_recording_mp4 := true;
  is_recording_observations := false;
  is_recording_rewards := false;
  is_recording_commands := true;
  mp4_path := "./mission_records/u1/video.mp4";
  mp4_bit_rate := 400000;
  mp4_fps := 20;
  observations_path := "";
  rewards_path := "";
  commands_path := "./mission_records/u1/logs/commands.txt";
  mission_init_path := "";
  temp_dir := Path "" ["."; "mission_records"; "u1"];
  destination := "out.tar.gz"
|}.

Definition ex_record : MissionRecord :=
  {| is_closed := false; spec := ex_spec |}.

Definition ex_session (content : list (string * node)) : World := {|
  os := Posix;
  cwd := [];
  fs := Dir [("mission_records", Dir [("u1", Dir content)])];
  denied := [];
  fs_calls := [];
  cout := [];
  heap := {[ 1%nat := ex_record ]}
|}.

(** Two readable files in nested directories. *)
Definition ex_content : list (string * node) :=
  [("logs", Dir [("commands.txt", File true (Bytes "move 1"))]);
   ("video", Dir [("frame001.png", File true (Bytes "PNG"))])].

Definition ex_world : World := ex_session ex_content.

(** The temporary directory is gone before [close] is called. *)
Definition ex_world_missing : World := {|
  os := Posix; cwd := []; fs := Dir []; denied := []; fs_calls := [];
  cout := []; heap := {[ 1%nat := ex_record ]}
|}.

(** One file, which cannot be read. *)
Definition ex_world_unreadable : World :=
  ex_session [("video.mp4", File false (Bytes "mp4"))].

(** Three files, the second of which cannot be read, and a dangling entry. *)
Definition ex_content_partial : list (string * node) :=
  [("commands.txt", File true (Bytes "move 1"));
   ("video.mp4", File false (Bytes "mp4"));
   ("stale", Dangling);
   ("rewards.txt", File true (Bytes "0.5"))].

Definition ex_world_partial : World := ex_session ex_content_partial.

Definition ex_file (name : string) : path :=
  Path "" ["."; "mission_records"; "u1"; name].



(** Two objects: the session at address 1 and an idle one at address 2. *)
Definition ex_world_two : World := {|
  os := Posix;
  cwd := [];
  fs := Dir [("mission_records",
              Dir [("u1", Dir [("commands.txt", File true (Bytes "move 1"))])])];
  denied := [];
  fs_calls := [];
  cout := [];
  heap := {[ 1%nat := ex_record;
             2%nat := {| is_closed := false; spec := default_spec |} ]}
|}.

(** Whether [addFile] succeeds on a file. *)
Definition can_add (w : World) (file : path) : bool :=
  match member_of w file with
  | Some _ => true
  | None => false
  end.

(** The world [w1] right after the object at [a], which was [ra], has been
    moved to [b] in the world [w]: [b] holds what [a] held, [a] holds the
    default spec, and nothing else differs. *)
Definition after_move (a b : nat) (ra : MissionRecord) (w w1 : World) : Prop :=
  heap w1 !! b = Some ra
  /\ heap w1 !! a = Some (set_spec default_spec ra)
  /\ os w1 = os w /\ cwd w1 = cwd w /\ fs w1 = fs w /\ denied w1 = denied w
  /\ fs_calls w1 = fs_calls w /\ cout w1 = cout w.

(** ** What the further properties are stated with *)



(** How many of the files [addFile] fails on. *)
Definition failures (w : World) (files : list path) : nat :=
  length (List.filter (fun f => negb (can_add w f)) files).

(** The values of all the accessors of a session. *)
Definition accessors (r : MissionRecord)
  : bool * bool * bool * bool * bool * string * Z * Z
    * string * string * string * string :=
  (isRecording r, isRecordingMP4 r, isRecordingObservations r,
   isRecordingRewards r, isRecordingCommands r, getMP4Path r, getMP4BitRate r,
   getMP4FramesPerSecond r, getObservationsPath r, getRewardsPath r,
   getCommandsPath r, getMissionInitPath r).

(** A world in which the session of the examples has not been built yet:
    no object, no directory. *)
Definition ex_world_fresh : World := {|
  os := Posix; cwd := []; fs := Dir [("home", Dir [])]; denied := [];
  fs_calls := []; cout := []; heap := ∅
|}.

(** A spec that records nothing, with fields of its own. *)
Definition ex_spec_idle : MissionRecordSpec := {|
  is_recording := false;
  is_recording_mp4 := false;
  is_recording_observations := false;
  is_recording_rewards := false;
  is_recording_commands := false;
  mp4_path := "";
  mp4_bit_rate := 0;
  mp4_fps := 0;
  observations_path := "";
  rewards_path := "";
  commands_path := "";
  mission_init_path := "";
  temp_dir := Path "" ["."; "mission_records"; "u2"];
  destination := "idle.tar.gz"
|}.

(** A second recording session, with the temporary directory
    [./mission_records/u2]. *)
Definition ex_record_second : MissionRecord :=
  {| is_closed := false;
     spec := {|
       is_recording := true;
       is_recording_mp4 := false;
       is_recording_observations := false;
       is_recording_rewards := true;
       is_recording_commands := false;
       mp4_path := "";
       mp4_bit_rate := 0;
       mp4_fps := 0;
       observations_path := "";
       rewards_path := "./mission_records/u2/rewards.txt";
       commands_path := "";
       mission_init_path := "";
       temp_dir := Path "" ["."; "mission_records"; "u2"];
       destination := "second.tar.gz"
     |} |}.

(** Two recording sessions, at the addresses 1 and 2, each with a file in
    its temporary directory, and a file that belongs to neither. *)
Definition ex_world_pair : World := {|
  os := Posix;
  cwd := [];
  fs := Dir [("mission_records",
              Dir [("u1", Dir [("commands.txt", File true (Bytes "move 1"))]);
                   ("u2", Dir [("rewards.txt", File true (Bytes "0.5"))])]);
             ("notes.txt", File true (Bytes "keep"))];
  denied := [];
  fs_calls := [];
  cout := [];
  heap := {[ 1%nat := ex_record; 2%nat := ex_record_second ]}
|}.

(** The temporary directory of the examples is a regular file. *)
Definition ex_world_file_root : World := {|
  os := Posix;
  cwd := [];
  fs := Dir [("mission_records",
              Dir [("u1", File true (Bytes "not a directory"))])];
  denied := [];
  fs_calls := [];
  cout := [];
  heap := {[ 1%nat := ex_record ]}
|}.

(** The session of the examples, with a directory [video] that cannot be
    opened for listing. *)
Definition ex_world_unlistable : World := {|
  os := Posix;
  cwd := [];
  fs := Dir [("mission_records", Dir [("u1", Dir ex_content)])];
  denied := [(Listing, ["mission_records"; "u1"; "video"])];
  fs_calls := [];
  cout := [];
  heap := {[ 1%nat := ex_record ]}
|}.

(** A session run from inside its temporary directory, which it names
    ["."]; the destination is [../out.tar.gz]. *)
Definition ex_record_dot : MissionRecord :=
  {| is_closed := false;
     spec := {|
       is_recording := true;
       is_recording_mp4 := false;
       is_recording_observations := false;
       is_recording_rewards := false;
       is_recording_commands := true;
       mp4_path := "";
       mp4_bit_rate := 0;
       mp4_fps := 0;
       observations_path := "";
       rewards_path := "";
       commands_path := "./commands.txt";
       mission_init_path := "";
       temp_dir := Path "" ["."];
       destination := "../out.tar.gz"
     |} |}.

Definition ex_world_dot : World := {|
  os := Posix;
  cwd := ["work"];
  fs := Dir [("work", Dir [("commands.txt", File true (Bytes "move 1"))])];
  denied := [];
  fs_calls := [];
  cout := [];
  heap := {[ 1%nat := ex_record_dot ]}
|}.

(** ** The file system: lemmas *)

Lemma find_entry_height (c : string) (es : list (string * node)) (n : node) :
  find_entry c es = Some n -> (node_height n < node_height (Dir es))%nat.
Proof.
  simpl. induction es as [|[k m] es IH]; simpl; [discriminate|].
  destruct (String.eqb k c); intros H.
  - inversion H; subst. lia.
  - specialize (IH H). lia.
Qed.

Lemma lookup_node_snoc (n : node) (loc : list string) (c : string) :
  lookup_node n (loc ++ [c]) =
  match lookup_node n loc with
  | Some (Dir es) => find_entry c es
  | _ => None
  end.
Proof.
  revert n. induction loc as [|d loc IH]; intros n; simpl.
  - destruct n as [| es |]; try reflexivity.
    destruct (find_entry c es) as [m|]; reflexivity.
  - destruct n as [| es |]; try reflexivity.
    destruct (find_entry d es) as [m|]; [apply IH | reflexivity].
Qed.

Lemma lookup_node_app (n : node) (loc rest : list string) :
  lookup_node n (loc ++ rest) =
  match lookup_node n loc with
  | Some m => lookup_node m rest
  | None => None
  end.
Proof.
  revert n. induction loc as [|d loc IH]; intros n; simpl; [reflexivity|].
  destruct n as [| es |]; try reflexivity.
  destruct (find_entry d es) as [m|]; [apply IH | reflexivity].
Qed.

Lemma lookup_node_height (n m : node) (loc : list string) :
  lookup_node n loc = Some m -> (node_height m <= node_height n)%nat.
Proof.
  revert n. induction loc as [|d loc IH]; intros n; simpl.
  - intros H; inversion H; lia.
  - destruct n as [| es |]; try discriminate.
    destruct (find_entry d es) as [k|] eqn:E; [|discriminate].
    intros H. apply IH in H. apply find_entry_height in E. lia.
Qed.

Lemma resolve_path_append (d : list string) (p : path) (name : string) :
  is_dot_name name = false ->
  resolve d (path_append p name) = resolve d p ++ [name].
Proof.
  unfold resolve, path_append, is_dot_name; simpl. intros H.
  apply orb_false_elim in H as [H1 H2].
  rewrite fold_left_app. simpl. unfold resolve_step at 1.
  rewrite H1, H2. reflexivity.
Qed.

Lemma find_entry_remove (c : string) (es : list (string * node)) :
  find_entry c (remove_entry c es) = None.
Proof.
  induction es as [|[k m] es IH]; simpl; [reflexivity|].
  destruct (String.eqb k c) eqn:E; simpl; [exact IH|].
  rewrite E. exact IH.
Qed.

Lemma find_entry_remove_other (c d : string) (es : list (string * node)) :
  String.eqb c d = false ->
  find_entry d (remove_entry c es) = find_entry d es.
Proof.
  intros Hcd. induction es as [|[k m] es IH]; simpl; [reflexivity|].
  destruct (String.eqb k c) eqn:E; simpl.
  - apply String.eqb_eq in E; subst k. rewrite Hcd. exact IH.
  - destruct (String.eqb k d); [reflexivity | exact IH].
Qed.

Lemma find_entry_update (f : node -> node) (c : string) (es : list (string * node)) :
  find_entry c (update_entry f c es) = option_map f (find_entry c es).
Proof.
  induction es as [|[k m] es IH]; simpl; [reflexivity|].
  destruct (String.eqb k c) eqn:E; simpl; rewrite E; [reflexivity | exact IH].
Qed.

Lemma find_entry_update_other (f : node -> node) (c d : string)
  (es : list (string * node)) :
  String.eqb c d = false ->
  find_entry d (update_entry f c es) = find_entry d es.
Proof.
  intros Hcd. induction es as [|[k m] es IH]; simpl; [reflexivity|].
  destruct (String.eqb k c) eqn:E; simpl.
  - apply String.eqb_eq in E; subst k. rewrite Hcd. reflexivity.
  - destruct (String.eqb k d); [reflexivity | exact IH].
Qed.

Lemma find_entry_put (c : string) (n : node) (es : list (string * node)) :
  find_entry c (put_entry c n es) = Some n.
Proof.
  induction es as [|[k m] es IH]; simpl.
  - rewrite String.eqb_refl. reflexivity.
  - destruct (String.eqb k c) eqn:E; simpl; rewrite E; [reflexivity | exact IH].
Qed.

Lemma find_entry_put_other (c d : string) (n : node) (es : list (string * node)) :
  String.eqb c d = false ->
  find_entry d (put_entry c n es) = find_entry d es.
Proof.
  intros Hcd. induction es as [|[k m] es IH]; simpl.
  - rewrite Hcd. reflexivity.
  - destruct (String.eqb k c) eqn:E; simpl.
    + apply String.eqb_eq in E; subst k. rewrite Hcd. reflexivity.
    + destruct (String.eqb k d); [reflexivity | exact IH].
Qed.

Lemma lookup_remove_node (loc rest : list string) (f : node) :
  loc <> [] -> lookup_node (remove_node loc f) (loc ++ rest) = None.
Proof.
  revert f. induction loc as [|c loc IH]; intros f Hne; [congruence|].
  destruct loc as [|c' loc].
  - destruct f as [| es |]; simpl; try reflexivity.
    rewrite find_entry_remove. reflexivity.
  - destruct f as [| es |]; try reflexivity.
    change (lookup_node (Dir (update_entry (remove_node (c' :: loc)) c es))
              (c :: ((c' :: loc) ++ rest)) = None).
    cbn [lookup_node]. rewrite find_entry_update.
    destruct (find_entry c es) as [m|]; simpl option_map; cbv iota; [|reflexivity].
    apply IH. discriminate.
Qed.

Lemma lookup_remove_node_file (loc q : list string) (f : node)
  (r : bool) (c : file_content) :
  is_under loc q = false ->
  lookup_node f q = Some (File r c) ->
  lookup_node (remove_node loc f) q = Some (File r c).
Proof.
  revert q f. induction loc as [|a loc IH]; intros q f Hu Hq; [discriminate|].
  destruct q as [|d q].
  - simpl in Hq. inversion Hq; subst f. destruct loc; reflexivity.
  - destruct f as [| es |]; try discriminate.
    cbn [lookup_node] in Hq.
    destruct (find_entry d es) as [m|] eqn:Ed; [|discriminate].
    cbn [is_under] in Hu.
    destruct (String.eqb a d) eqn:Ead.
    + apply String.eqb_eq in Ead; subst d. simpl in Hu.
      destruct loc as [|a' loc]; [discriminate|].
      change (remove_node (a :: a' :: loc) (Dir es))
        with (Dir (update_entry (remove_node (a' :: loc)) a es)).
      cbn [lookup_node]. rewrite find_entry_update, Ed. simpl.
      apply IH; assumption.
    + destruct loc as [|a' loc].
      * cbn [remove_node lookup_node].
        rewrite (find_entry_remove_other _ _ _ Ead), Ed. exact Hq.
      * change (remove_node (a :: a' :: loc) (Dir es))
          with (Dir (update_entry (remove_node (a' :: loc)) a es)).
        cbn [lookup_node].
        rewrite (find_entry_update_other _ _ _ _ Ead), Ed. exact Hq.
Qed.

Lemma lookup_put_node (loc : list string) (new f : node) :
  can_open_for_writing f loc = true ->
  lookup_node (put_node loc new f) loc = Some new.
Proof.
  unfold can_open_for_writing.
  revert f. induction loc as [|c loc IH]; intros f H; [discriminate|].
  apply andb_prop in H as [Hp Ht].
  destruct loc as [|c' loc].
  - simpl in Hp. destruct f as [| es |]; try discriminate.
    cbn [put_node lookup_node]. rewrite find_entry_put. reflexivity.
  - change (removelast (c :: c' :: loc)) with (c :: removelast (c' :: loc)) in Hp.
    destruct f as [| es |]; try discriminate.
    cbn [lookup_node] in Hp, Ht.
    change (put_node (c :: c' :: loc) new (Dir es))
      with (Dir (update_entry (put_node (c' :: loc) new) c es)).
    cbn [lookup_node]. rewrite find_entry_update.
    destruct (find_entry c es) as [m|]; [|discriminate]. simpl.
    apply IH. apply andb_true_intro. split; assumption.
Qed.

Lemma update_entry_twice (g h : node -> node) (c : string)
  (es : list (string * node)) :
  update_entry g c (update_entry h c es) = update_entry (fun n => g (h n)) c es.
Proof.
  induction es as [|[k m] es IH]; simpl; [reflexivity|].
  destruct (String.eqb k c) eqn:E; simpl; rewrite E; [reflexivity|].
  rewrite IH. reflexivity.
Qed.

Lemma update_entry_ext (g h : node -> node) (c : string)
  (es : list (string * node)) :
  (forall n, g n = h n) -> update_entry g c es = update_entry h c es.
Proof.
  intros Hgh. induction es as [|[k m] es IH]; simpl; [reflexivity|].
  destruct (String.eqb k c); [rewrite Hgh | rewrite IH]; reflexivity.
Qed.

Lemma put_entry_twice (c : string) (a b : node) (es : list (string * node)) :
  put_entry c b (put_entry c a es) = put_entry c b es.
Proof.
  induction es as [|[k m] es IH]; simpl.
  - rewrite String.eqb_refl. reflexivity.
  - destruct (String.eqb k c) eqn:E; simpl; rewrite E; [reflexivity|].
    rewrite IH. reflexivity.
Qed.

Lemma put_node_twice (loc : list string) (a b f : node) :
  put_node loc b (put_node loc a f) = put_node loc b f.
Proof.
  revert f. induction loc as [|c loc IH]; intros f; [reflexivity|].
  destruct loc as [|c' loc].
  - destruct f as [| es |]; try reflexivity.
    cbn [put_node]. rewrite put_entry_twice. reflexivity.
  - destruct f as [| es |]; try reflexivity.
    change (put_node (c :: c' :: loc) a (Dir es))
      with (Dir (update_entry (put_node (c' :: loc) a) c es)).
    change (put_node (c :: c' :: loc) b (Dir es))
      with (Dir (update_entry (put_node (c' :: loc) b) c es)).
    change (put_node (c :: c' :: loc) b
              (Dir (update_entry (put_node (c' :: loc) a) c es)))
      with (Dir (update_entry (put_node (c' :: loc) b) c
                   (update_entry (put_node (c' :: loc) a) c es))).
    rewrite update_entry_twice.
    f_equal. apply update_entry_ext. intros n. apply IH.
Qed.

(** ** The enumeration of files: lemmas *)

Lemma files_under_Dir (p : path) (es : list (string * node)) :
  files_under p (Dir es) =
  flat_map
    (fun e =>
       if is_dot_name (fst e) then []
       else
         match snd e with
         | File _ _ => [path_append p (fst e)]
         | Dir _ => files_under (path_append p (fst e)) (snd e)
         | Dangling => []
         end)
    es.
Proof.
  simpl. induction es as [|[name m] es IH]; [reflexivity|].
  simpl. rewrite IH. reflexivity.
Qed.

Lemma well_formed_Dir (es : list (string * node)) :
  well_formed (Dir es) =
  distinct (map fst es) && forallb (fun e => well_formed (snd e)) es.
Proof.
  simpl. f_equal. induction es as [|[name m] es IH]; [reflexivity|].
  simpl. rewrite IH. reflexivity.
Qed.

Lemma entry_height (name : string) (m : node) (es : list (string * node)) :
  In (name, m) es -> (node_height m < node_height (Dir es))%nat.
Proof.
  simpl. induction es as [|[k n] es IH]; simpl; [tauto|].
  intros [H|H].
  - inversion H; subst. lia.
  - specialize (IH H). lia.
Qed.

Lemma find_entry_distinct (name : string) (m : node) (es : list (string * node)) :
  distinct (map fst es) = true ->
  In (name, m) es -> find_entry name es = Some m.
Proof.
  induction es as [|[k n] es IH]; simpl; [tauto|].
  intros Hd [H|H].
  - inversion H; subst. rewrite String.eqb_refl. reflexivity.
  - apply andb_prop in Hd as [Hk Hd].
    destruct (String.eqb k name) eqn:E.
    + apply String.eqb_eq in E; subst k.
      apply negb_true_iff in Hk.
      assert (existsb (String.eqb name) (map fst es) = true) as Hx.
      { apply existsb_exists. exists name. split.
        - apply in_map_iff. exists (name, m). split; [reflexivity | exact H].
        - apply String.eqb_refl. }
      congruence.
    + apply IH; assumption.
Qed.

Lemma collect_files_under (fuel : nat) (p : path) (n : node) :
  well_formed n = true ->
  (node_height n <= fuel)%nat ->
  collect fuel p n = files_under p n.
Proof.
  revert p n. induction fuel as [|fuel IH]; intros p n Hwf Hh.
  - destruct n as [| es |]; try reflexivity. simpl in Hh. lia.
  - destruct n as [| es |]; try reflexivity.
    rewrite files_under_Dir. cbn [collect].
    rewrite well_formed_Dir in Hwf. apply andb_prop in Hwf as [Hd Hall].
    assert (forall name m, In (name, m) es ->
              find_entry name es = Some m /\ well_formed m = true
              /\ (node_height m <= fuel)%nat) as Hes.
    { intros name m Hin. split; [|split].
      - apply find_entry_distinct; assumption.
      - rewrite forallb_forall in Hall. apply (Hall (name, m) Hin).
      - apply entry_height in Hin. lia. }
    clear Hd Hall Hh. revert Hes.
    set (P := fun l : list (string * node) =>
                forall name m, In (name, m) l ->
                  find_entry name es = Some m /\ well_formed m = true
                  /\ (node_height m <= fuel)%nat).
    change (P es ->
            flat_map
              (fun name =>
                 match find_entry name es with
                 | Some (File _ _) => [path_append p name]
                 | Some (Dir es') => collect fuel (path_append p name) (Dir es')
                 | _ => []
                 end)
              (List.filter (fun name => negb (is_dot_name name)) (map fst es)) =
            flat_map
              (fun e =>
                 if is_dot_name (fst e) then []
                 else
                   match snd e with
                   | File _ _ => [path_append p (fst e)]
                   | Dir _ => files_under (path_append p (fst e)) (snd e)
                   | Dangling => []
                   end)
              es).
    generalize es at 1 3 4 as l.
    induction l as [|[name m] l IHl]; intros Hes; [reflexivity|].
    cbn [map fst List.filter flat_map snd].
    assert (P l) as Hl.
    { intros name' m' Hin. apply Hes. right. exact Hin. }
    destruct (Hes name m (or_introl eq_refl)) as (Hf & Hw & Hm).
    destruct (is_dot_name name) eqn:Edot; cbn [negb].
    + rewrite (IHl Hl). reflexivity.
    + cbn [flat_map]. rewrite Hf, (IHl Hl). f_equal.
      destruct m as [| es' |]; try reflexivity.
      apply IH; assumption.
Qed.

(** ** Entries that a change leaves alone: lemmas *)

Lemma same_entry_refl (n : option node) : same_entry n n.
Proof. destruct n as [[rd c | es |]|]; reflexivity. Qed.

Lemma same_entry_trans (a b c : option node) :
  same_entry a b -> same_entry b c -> same_entry a c.
Proof.
  destruct a as [[rd k | es |]|]; simpl; intros Hab Hbc.
  - subst b. exact Hbc.
  - destruct b as [[| es' |]|]; try discriminate. exact Hbc.
  - subst b. exact Hbc.
  - subst b. exact Hbc.
Qed.

Lemma same_entry_file (before after : option node) (rd : bool)
  (c : file_content) :
  same_entry before after -> before = Some (File rd c) -> after = Some (File rd c).
Proof. intros H ->. exact H. Qed.

Lemma same_entry_none (before after : option node) :
  same_entry before after -> before = None -> after = None.
Proof. intros H ->. exact H. Qed.


(** Removing an entry leaves what is not below it alone. *)
Lemma remove_node_outside (loc : list string) :
  forall (q : list string) (f : node),
    is_under loc q = false ->
    same_entry (lookup_node f q) (lookup_node (remove_node loc f) q).
Proof.
  induction loc as [|a loc IH]; intros q f Hu; [discriminate|].
  destruct f as [rd c | es |].
  - replace (remove_node (a :: loc) (File rd c)) with (File rd c)
      by (destruct loc; reflexivity).
    apply same_entry_refl.
  - destruct q as [|d q]; [destruct loc; reflexivity|].
    cbn [is_under] in Hu. destruct (String.eqb a d) eqn:Ead.
    + apply String.eqb_eq in Ead; subst d. simpl in Hu.
      destruct loc as [|a' loc]; [discriminate|].
      change (remove_node (a :: a' :: loc) (Dir es))
        with (Dir (update_entry (remove_node (a' :: loc)) a es)).
      cbn [lookup_node]. rewrite find_entry_update.
      destruct (find_entry a es) as [m|]; simpl option_map; [|reflexivity].
      apply IH. exact Hu.
    + destruct loc as [|a' loc].
      * cbn [remove_node lookup_node].
        rewrite (find_entry_remove_other _ _ _ Ead). apply same_entry_refl.
      * change (remove_node (a :: a' :: loc) (Dir es))
          with (Dir (update_entry (remove_node (a' :: loc)) a es)).
        cbn [lookup_node].
        rewrite (find_entry_update_other _ _ _ _ Ead). apply same_entry_refl.
  - replace (remove_node (a :: loc) Dangling) with Dangling
      by (destruct loc; reflexivity).
    apply same_entry_refl.
Qed.

(** Setting an entry leaves what is not below it alone. *)
Lemma put_node_outside (loc : list string) (new : node) :
  forall (q : list string) (f : node),
    is_under loc q = false ->
    same_entry (lookup_node f q) (lookup_node (put_node loc new f) q).
Proof.
  induction loc as [|a loc IH]; intros q f Hu; [discriminate|].
  destruct f as [rd c | es |].
  - replace (put_node (a :: loc) new (File rd c)) with (File rd c)
      by (destruct loc; reflexivity).
    apply same_entry_refl.
  - destruct q as [|d q]; [destruct loc; reflexivity|].
    cbn [is_under] in Hu. destruct (String.eqb a d) eqn:Ead.
    + apply String.eqb_eq in Ead; subst d. simpl in Hu.
      destruct loc as [|a' loc]; [discriminate|].
      change (put_node (a :: a' :: loc) new (Dir es))
        with (Dir (update_entry (put_node (a' :: loc) new) a es)).
      cbn [lookup_node]. rewrite find_entry_update.
      destruct (find_entry a es) as [m|]; simpl option_map; [|reflexivity].
      apply IH. exact Hu.
    + destruct loc as [|a' loc].
      * cbn [put_node lookup_node].
        rewrite (find_entry_put_other _ _ _ _ Ead). apply same_entry_refl.
      * change (put_node (a :: a' :: loc) new (Dir es))
          with (Dir (update_entry (put_node (a' :: loc) new) a es)).
        cbn [lookup_node].
        rewrite (find_entry_update_other _ _ _ _ Ead). apply same_entry_refl.
  - replace (put_node (a :: loc) new Dangling) with Dangling
      by (destruct loc; reflexivity).
    apply same_entry_refl.
Qed.

Lemma set_node_outside (loc : list string) (new : node) (q : list string)
  (f : node) :
  is_under loc q = false ->
  same_entry (lookup_node f q) (lookup_node (set_node loc new f) q).
Proof.
  intros Hu. destruct loc as [|a loc]; [discriminate|].
  apply (put_node_outside (a :: loc) new). exact Hu.
Qed.

(** Writing a file where no directory is leaves every other entry alone. *)
Lemma put_file_other (loc : list string) (rd : bool) (c : file_content) :
  forall (q : list string) (f : node),
    node_is_directory (lookup_node f loc) = false ->
    q <> loc ->
    same_entry (lookup_node f q) (lookup_node (put_node loc (File rd c) f) q).
Proof.
  induction loc as [|a loc IH]; intros q f Hnd Hne; [apply same_entry_refl|].
  destruct f as [rd' c' | es |].
  - replace (put_node (a :: loc) (File rd c) (File rd' c')) with (File rd' c')
      by (destruct loc; reflexivity).
    apply same_entry_refl.
  - destruct q as [|d q]; [destruct loc; reflexivity|].
    destruct (String.eqb a d) eqn:Ead.
    + apply String.eqb_eq in Ead; subst d. cbn [lookup_node] in Hnd.
      destruct loc as [|a' loc].
      * cbn [put_node lookup_node]. rewrite find_entry_put.
        destruct q as [|d' q]; [congruence|].
        cbn [lookup_node] in Hnd.
        destruct (find_entry a es) as [[| es' |]|]; try discriminate Hnd;
          reflexivity.
      * change (put_node (a :: a' :: loc) (File rd c) (Dir es))
          with (Dir (update_entry (put_node (a' :: loc) (File rd c)) a es)).
        cbn [lookup_node]. rewrite find_entry_update.
        destruct (find_entry a es) as [m|]; simpl option_map; [|reflexivity].
        apply IH; [exact Hnd | congruence].
    + destruct loc as [|a' loc].
      * cbn [put_node lookup_node].
        rewrite (find_entry_put_other _ _ _ _ Ead). apply same_entry_refl.
      * change (put_node (a :: a' :: loc) (File rd c) (Dir es))
          with (Dir (update_entry (put_node (a' :: loc) (File rd c)) a es)).
        cbn [lookup_node].
        rewrite (find_entry_update_other _ _ _ _ Ead). apply same_entry_refl.
  - replace (put_node (a :: loc) (File rd c) Dangling) with Dangling
      by (destruct loc; reflexivity).
    apply same_entry_refl.
Qed.

(** ** Locations and refusals: lemmas *)

Lemma is_under_app (loc q : list string) :
  is_under loc q = true -> exists rest, q = loc ++ rest.
Proof.
  revert q. induction loc as [|a loc IH]; intros q H; [exists q; reflexivity|].
  destruct q as [|d q]; [discriminate|].
  cbn [is_under] in H. apply andb_prop in H as [Had Hq].
  apply String.eqb_eq in Had; subst d.
  destruct (IH _ Hq) as (rest & ->). exists rest. reflexivity.
Qed.

Lemma is_under_app_r (loc rest : list string) : is_under loc (loc ++ rest) = true.
Proof.
  induction loc as [|a loc IH]; [reflexivity|].
  cbn [app is_under]. rewrite String.eqb_refl. exact IH.
Qed.

Lemma is_under_refl (loc : list string) : is_under loc loc = true.
Proof. rewrite <- (app_nil_r loc) at 2. apply is_under_app_r. Qed.

Lemma is_under_trans (a b c : list string) :
  is_under a b = true -> is_under b c = true -> is_under a c = true.
Proof.
  intros Hab Hbc.
  destruct (is_under_app _ _ Hab) as (r1 & ->).
  destruct (is_under_app _ _ Hbc) as (r2 & ->).
  rewrite <- app_assoc. apply is_under_app_r.
Qed.

Lemma unhindered_refuses (w : World) (loc l : list string) (a : access) :
  unhindered w loc = true -> is_under loc l = true -> is_denied w a l = false.
Proof.
  unfold unhindered, is_denied, refuses. intros Hu Hl.
  induction (denied w) as [|d dn IH]; [reflexivity|].
  cbn [forallb existsb] in *. apply andb_prop in Hu as [Hd Hdn].
  rewrite (IH Hdn), orb_false_r.
  destruct (decide (snd d = l)) as [E|E]; [|apply andb_false_r].
  rewrite E, Hl in Hd. discriminate.
Qed.

Lemma unhindered_below (w : World) (loc l : list string) :
  unhindered w loc = true -> is_under loc l = true -> unhindered w l = true.
Proof.
  unfold unhindered. rewrite !forallb_forall. intros H Hl d Hd.
  specialize (H d Hd). apply negb_true_iff in H. apply negb_true_iff.
  destruct (is_under l (snd d)) eqn:E; [|reflexivity].
  rewrite (is_under_trans _ _ _ Hl E) in H. discriminate.
Qed.

(** A refusal at or below a location hinders it. *)
Lemma denied_hinders (w : World) (loc l : list string) (a : access) :
  is_denied w a l = true -> is_under loc l = true -> unhindered w loc = false.
Proof.
  intros Hd Hl. destruct (unhindered w loc) eqn:Hu; [|reflexivity].
  rewrite (unhindered_refuses _ _ _ a Hu Hl) in Hd. discriminate.
Qed.

Lemma hindered_above (w : World) (loc l : list string) :
  unhindered w l = false -> is_under loc l = true -> unhindered w loc = false.
Proof.
  intros Hl Hu. destruct (unhindered w loc) eqn:E; [|reflexivity].
  rewrite (unhindered_below _ _ _ E Hu) in Hl. discriminate.
Qed.

(** ** The recursive deletion: lemmas *)

Lemma purge_Dir (dn : list (access * list string)) (loc : list string)
  (es : list (string * node)) :
  purge dn loc (Dir es) =
  if refuses dn Listing loc then Some (Dir es)
  else
    match purge_list (fun name m => purge dn (loc ++ [name]) m) es with
    | [] => if refuses dn Removing loc then Some (Dir []) else None
    | es' => Some (Dir es')
    end.
Proof.
  cbn [purge]. destruct (refuses dn Listing loc); [reflexivity|].
  match goal with
  | |- match ?X with _ => _ end = _ =>
      replace X with (purge_list (fun name m => purge dn (loc ++ [name]) m) es);
      [reflexivity|]
  end.
  induction es as [|[name m] es IH]; [reflexivity|].
  cbn [purge_list]. rewrite IH. reflexivity.
Qed.

(** Where nothing is refused, everything is deleted. *)
Lemma purge_unhindered (dn : list (access * list string)) :
  forall (h : nat) (n : node) (loc : list string),
    (node_height n <= h)%nat ->
    (forall l a, is_under loc l = true -> refuses dn a l = false) ->
    purge dn loc n = None.
Proof.
  induction h as [|h IH]; intros n loc Hh Hfree.
  - destruct n as [rd c | es |]; [| simpl in Hh; lia |];
      cbn [purge]; rewrite Hfree by apply is_under_refl; reflexivity.
  - destruct n as [rd c | es |];
      try (cbn [purge]; rewrite Hfree by apply is_under_refl; reflexivity).
    rewrite purge_Dir, (Hfree loc Listing (is_under_refl loc)).
    assert (purge_list (fun name m => purge dn (loc ++ [name]) m) es = []) as ->.
    { assert (forall name m, In (name, m) es -> (node_height m <= h)%nat) as Hes.
      { intros name m Hin. apply entry_height in Hin. lia. }
      clear Hh. induction es as [|[name m] es IHes]; [reflexivity|].
      cbn [purge_list]. rewrite IH.
      - apply IHes. intros name' m' Hin. apply (Hes name' m'). right. exact Hin.
      - apply (Hes name m). left. reflexivity.
      - intros l a Hl. apply Hfree.
        apply (is_under_trans loc (loc ++ [name])); [apply is_under_app_r | exact Hl]. }
    rewrite Hfree by apply is_under_refl. reflexivity.
Qed.

(** ** The monad: lemmas *)

Lemma bind_ok {A B} (m : M A) (k : A -> M B) (w w' : World) (a : A) :
  m w = (Ok a, w') -> bind m k w = k a w'.
Proof. intros H. unfold bind. rewrite H. reflexivity. Qed.

Lemma bind_throw {A B} (m : M A) (k : A -> M B) (w w' : World) (e : exn) :
  m w = (Throw e, w') -> bind m k w = (Throw e, w').
Proof. intros H. unfold bind. rewrite H. reflexivity. Qed.

Lemma stat_path_append (w : World) (p : path) (name : string)
  (es : list (string * node)) :
  stat w p = Some (Dir es) ->
  is_dot_name name = false ->
  stat w (path_append p name) = find_entry name es.
Proof.
  unfold stat. intros Hp Hn.
  rewrite (resolve_path_append _ _ _ Hn), lookup_node_snoc, Hp. reflexivity.
Qed.

Lemma collect_more_fuel (fuel fuel' : nat) (p : path) (n : node) :
  (node_height n <= fuel)%nat -> (fuel <= fuel')%nat ->
  collect fuel' p n = collect fuel p n.
Proof.
  revert fuel' p n. induction fuel as [|fuel IH]; intros fuel' p n Hh Hle.
  - destruct n as [| es |]; try (destruct fuel'; reflexivity). simpl in Hh. lia.
  - destruct fuel' as [|fuel']; [lia|].
    destruct n as [| es |]; try reflexivity.
    cbn [collect]. apply flat_map_ext. intros name.
    destruct (find_entry name es) as [[r c | es' |]|] eqn:Ef; try reflexivity.
    apply IH; [|lia]. apply find_entry_height in Ef. lia.
Qed.

(** ** [addFiles]: how it runs *)

Lemma fs_exists_run (p : path) (w : World) :
  status_refused w p = false ->
  fs_exists p w = (Ok (node_exists (stat w p)), w).
Proof. intros H. unfold fs_exists. rewrite H. reflexivity. Qed.

Lemma fs_is_directory_run (p : path) (w : World) :
  status_refused w p = false ->
  fs_is_directory p w = (Ok (node_is_directory (stat w p)), w).
Proof. intros H. unfold fs_is_directory. rewrite H. reflexivity. Qed.

(** What [addFiles] does with one entry of the directory [p], whose entries
    are [es]: the entry adds what [collect] says, or something is refused at
    the entry or below and the library throws. *)
Lemma addFiles_entry (fuel : nat) (p : path) (w : World)
  (es : list (string * node)) (name : string) :
  (forall (fileList : list path) (q : path) (es' : list (string * node)),
     stat w q = Some (Dir es') ->
     (node_height (Dir es') <= fuel)%nat ->
     is_denied w Status (resolve (cwd w) q) = false ->
     addFiles_fuel fuel fileList q w
     = (Ok (fileList ++ collect fuel q (Dir es')), w)
     \/ (unhindered w (resolve (cwd w) q) = false
         /\ exists what,
              addFiles_fuel fuel fileList q w
              = (Throw (StdException ("boost::filesystem::" +:+ what)), w))) ->
  stat w p = Some (Dir es) ->
  (node_height (Dir es) <= S fuel)%nat ->
  is_dot_name name = false ->
  forall fileList : list path,
    let body :=
      (found <- fs_exists (path_append p name) ;;
       if found
       then
         is_dir <- fs_is_directory (path_append p name) ;;
         if is_dir
         then addFiles_fuel fuel fileList (path_append p name)
         else ret (fileList ++ [path_append p name])
       else ret fileList) in
    body w
    = (Ok (fileList ++
           match find_entry name es with
           | Some (File _ _) => [path_append p name]
           | Some (Dir es') => collect fuel (path_append p name) (Dir es')
           | _ => []
           end), w)
    \/ (unhindered w (resolve (cwd w) p) = false
        /\ exists what,
             body w = (Throw (StdException ("boost::filesystem::" +:+ what)), w)).
Proof.
  intros IH Hp Hh Hname fileList body. subst body.
  pose proof (stat_path_append w p name es Hp Hname) as Hst.
  pose proof (resolve_path_append (cwd w) p name Hname) as Hloc.
  assert (is_under (resolve (cwd w) p) (resolve (cwd w) (path_append p name))
          = true) as Hunder.
  { rewrite Hloc. apply is_under_app_r. }
  destruct (status_refused w (path_append p name)) eqn:Hrefused.
  - right. split.
    + unfold status_refused in Hrefused. apply andb_prop in Hrefused as [_ Hd].
      apply (denied_hinders _ _ _ _ Hd Hunder).
    + exists ("status: " +:+ path_string (os w) (path_append p name)).
      apply bind_throw. unfold fs_exists. rewrite Hrefused. reflexivity.
  - rewrite (bind_ok _ _ _ _ _ (fs_exists_run _ _ Hrefused)). rewrite Hst.
    destruct (find_entry name es) as [[rd c | es' |]|] eqn:Ef;
      cbn [node_exists].
    + left. rewrite (bind_ok _ _ _ _ _ (fs_is_directory_run _ _ Hrefused)).
      rewrite Hst. reflexivity.
    + rewrite (bind_ok _ _ _ _ _ (fs_is_directory_run _ _ Hrefused)).
      rewrite Hst. cbn [node_is_directory].
      assert (is_denied w Status (resolve (cwd w) (path_append p name)) = false)
        as Hfree.
      { unfold status_refused in Hrefused. rewrite Hst in Hrefused.
        exact Hrefused. }
      destruct (IH fileList (path_append p name) es' Hst) as [Hok | (Hh' & Hthrow)];
        [apply find_entry_height in Ef; lia | exact Hfree | left; exact Hok |].
      right. split; [|exact Hthrow].
      apply (hindered_above _ _ _ Hh' Hunder).
    + left. unfold ret. rewrite app_nil_r. reflexivity.
    + left. unfold ret. rewrite app_nil_r. reflexivity.
Qed.

(** [addFiles] on a directory whose status can be read changes nothing; it
    returns the list with what [collect] gives appended, or something is
    refused at the directory or below it and the library throws. *)
Lemma addFiles_fuel_run (fuel : nat) :
  forall (fileList : list path) (p : path) (w : World) (es : list (string * node)),
    stat w p = Some (Dir es) ->
    (node_height (Dir es) <= fuel)%nat ->
    is_denied w Status (resolve (cwd w) p) = false ->
    addFiles_fuel fuel fileList p w
    = (Ok (fileList ++ collect fuel p (Dir es)), w)
    \/ (unhindered w (resolve (cwd w) p) = false
        /\ exists what,
             addFiles_fuel fuel fileList p w
             = (Throw (StdException ("boost::filesystem::" +:+ what)), w)).
Proof.
  induction fuel as [|fuel IH]; intros fileList p w es Hp Hh Hfree.
  - simpl in Hh. lia.
  - cbn [addFiles_fuel collect].
    rewrite (bind_ok _ _ w w true).
    2:{ rewrite fs_exists_run; [rewrite Hp; reflexivity|].
        unfold status_refused. rewrite Hfree. apply andb_false_r. }
    cbn [negb].
    destruct (is_denied w Listing (resolve (cwd w) p)) eqn:Hlist.
    { right. split.
      - apply (denied_hinders _ _ _ _ Hlist). apply is_under_refl.
      - exists ("directory_iterator::construct: " +:+ path_string (os w) p).
        apply bind_throw. unfold directory_iterator. rewrite Hp, Hlist.
        reflexivity. }
    rewrite (bind_ok _ _ w w
               (map (path_append p)
                  (List.filter (fun name => negb (is_dot_name name)) (map fst es))))
      by (unfold directory_iterator; rewrite Hp, Hlist; reflexivity).
    assert (Forall (fun name => is_dot_name name = false)
              (List.filter (fun name => negb (is_dot_name name)) (map fst es)))
      as Hnames.
    { apply List.Forall_forall. intros name Hin.
      apply filter_In in Hin as [_ Hin]. apply negb_true_iff in Hin. exact Hin. }
    revert fileList Hnames.
    generalize (List.filter (fun name => negb (is_dot_name name)) (map fst es))
      as names.
    induction names as [|name names IHn]; intros fileList Hnames.
    + left. simpl. unfold ret. rewrite app_nil_r. reflexivity.
    + inversion Hnames as [|? ? Hname Hrest]; subst.
      cbn [map for_each flat_map].
      destruct (addFiles_entry fuel p w es name
                  (fun fl q es' => IH fl q w es') Hp Hh Hname fileList)
        as [Hok | (Hhind & what & Hthrow)].
      * cbv zeta in Hok. rewrite (bind_ok _ _ _ _ _ Hok).
        destruct (IHn (fileList ++
                       match find_entry name es with
                       | Some (File _ _) => [path_append p name]
                       | Some (Dir es') =>
                           collect fuel (path_append p name) (Dir es')
                       | _ => []
                       end) Hrest) as [Hgo | (Hhind & what & Hthrow)].
        -- left. rewrite Hgo, <- app_assoc. reflexivity.
        -- right. split; [exact Hhind|]. exists what. exact Hthrow.
      * right. split; [exact Hhind|]. exists what.
        cbv zeta in Hthrow. apply bind_throw. exact Hthrow.
Qed.

(** The ways [addFiles] ends: with its own error, on a root that does not
    exist; with an error of the library, on a root that is a regular file or
    where something is refused at the root or below; or with the files that
    [collect] gives. The world is never changed. *)
Lemma addFiles_cases (fileList : list path) (p : path) (w : World) :
  (node_exists (stat w p) = false
   /\ addFiles fileList p w
      = (Throw (StdException (missing_directory_message (os w) p)), w))
  \/ (node_exists (stat w p) = true
      /\ ((exists rd c, stat w p = Some (File rd c))
          \/ unhindered w (resolve (cwd w) p) = false)
      /\ exists what,
           addFiles fileList p w
           = (Throw (StdException ("boost::filesystem::" +:+ what)), w))
  \/ (exists es,
        stat w p = Some (Dir es)
        /\ addFiles fileList p w
           = (Ok (fileList ++ collect (node_height (Dir es)) p (Dir es)), w)).
Proof.
  destruct (node_exists (stat w p)) eqn:Hex.
  2:{ left. split; [reflexivity|]. unfold addFiles. cbn [addFiles_fuel].
      rewrite (bind_ok _ _ w w false); [reflexivity|].
      rewrite fs_exists_run; [rewrite Hex; reflexivity|].
      unfold status_refused. rewrite Hex. reflexivity. }
  right.
  destruct (is_denied w Status (resolve (cwd w) p)) eqn:Hstatus.
  { left. split; [reflexivity|]. split.
    - right. apply (denied_hinders _ _ _ _ Hstatus). apply is_under_refl.
    - exists ("status: " +:+ path_string (os w) p).
      unfold addFiles. cbn [addFiles_fuel]. apply bind_throw.
      unfold fs_exists, status_refused. rewrite Hex, Hstatus. reflexivity. }
  destruct (stat w p) as [[rd c | es |]|] eqn:Hp; try discriminate.
  - left. split; [reflexivity|]. split; [left; eauto|].
    exists ("directory_iterator::construct: " +:+ path_string (os w) p).
    unfold addFiles. cbn [addFiles_fuel].
    rewrite (bind_ok _ _ w w true).
    2:{ rewrite fs_exists_run; [rewrite Hp; reflexivity|].
        unfold status_refused. rewrite Hstatus. apply andb_false_r. }
    cbn [negb]. apply bind_throw. unfold directory_iterator. rewrite Hp.
    reflexivity.
  - assert (node_height (Dir es) <= S (node_height (fs w)))%nat as Hh.
    { apply lookup_node_height in Hp. lia. }
    destruct (addFiles_fuel_run _ fileList p w es Hp Hh Hstatus)
      as [Hok | (Hhind & what & Hthrow)].
    + right. exists es. split; [reflexivity|]. unfold addFiles. rewrite Hok.
      rewrite (collect_more_fuel (node_height (Dir es)));
        [reflexivity | lia | exact Hh].
    + left. split; [reflexivity|]. split; [right; exact Hhind|].
      exists what. exact Hthrow.
Qed.

Lemma addFiles_missing (fileList : list path) (p : path) (w : World) :
  node_exists (stat w p) = false ->
  addFiles fileList p w
  = (Throw (StdException (missing_directory_message (os w) p)), w).
Proof.
  intros Hp.
  destruct (addFiles_cases fileList p w)
    as [(_ & Hrun) | [(Hex & _) | (es & Hdir & _)]].
  - exact Hrun.
  - congruence.
  - rewrite Hdir in Hp. discriminate.
Qed.

(** On a directory at and below which nothing is refused, [addFiles]
    returns. *)
Lemma addFiles_unhindered (fileList : list path) (p : path) (w : World)
  (es : list (string * node)) :
  stat w p = Some (Dir es) ->
  unhindered w (resolve (cwd w) p) = true ->
  addFiles fileList p w
  = (Ok (fileList ++ collect (node_height (Dir es)) p (Dir es)), w).
Proof.
  intros Hp Hfree.
  destruct (addFiles_cases fileList p w)
    as [(Hmiss & _) | [(_ & [(rd & c & Hfile) | Hhind] & _) | (es' & Hdir & Hrun)]].
  - rewrite Hp in Hmiss. discriminate.
  - congruence.
  - congruence.
  - rewrite Hp in Hdir. inversion Hdir; subst es'. exact Hrun.
Qed.

(** What [addFiles] returned is what [collect] gives on a directory, and the
    world is as it was. *)
Lemma addFiles_returned (fileList files : list path) (p : path) (w w' : World) :
  addFiles fileList p w = (Ok files, w') ->
  w' = w
  /\ exists es,
       stat w p = Some (Dir es)
       /\ files = fileList ++ collect (node_height (Dir es)) p (Dir es).
Proof.
  intros H.
  destruct (addFiles_cases fileList p w)
    as [(_ & Hrun) | [(_ & _ & what & Hrun) | (es & Hdir & Hrun)]];
    rewrite Hrun in H; try discriminate.
  inversion H; subst. split; [reflexivity|]. exists es. split; [exact Hdir|].
  reflexivity.
Qed.

(** What [addFiles] threw is a [std::exception], and the world is as it
    was; the error of the missing directory means that the root does not
    exist. *)
Lemma addFiles_threw (fileList : list path) (p : path) (w w' : World) (e : exn) :
  addFiles fileList p w = (Throw e, w') ->
  w' = w
  /\ (exists what, e = StdException what)
  /\ (e = StdException (missing_directory_message (os w) p) ->
      node_exists (stat w p) = false)
  /\ (node_exists (stat w p) = false
      \/ (exists rd c, stat w p = Some (File rd c))
      \/ unhindered w (resolve (cwd w) p) = false).
Proof.
  intros H.
  destruct (addFiles_cases fileList p w)
    as [(Hmiss & Hrun) | [(Hex & Hwhy & what & Hrun) | (es & Hdir & Hrun)]];
    rewrite Hrun in H; try discriminate; inversion H; subst.
  - split; [reflexivity|]. split; [eauto|]. split; [auto | left; exact Hmiss].
  - split; [reflexivity|]. split; [eauto|]. split; [|right; exact Hwhy].
    unfold missing_directory_message. intros Hm. simpl in Hm. discriminate Hm.
Qed.

(** [addFiles] always has a result: the depth bound is never reached. *)
Lemma addFiles_defined (fileList : list path) (p : path) (w : World) :
  fst (addFiles fileList p w) <> Undefined.
Proof.
  destruct (addFiles_cases fileList p w)
    as [(_ & Hrun) | [(_ & _ & what & Hrun) | (es & _ & Hrun)]];
    rewrite Hrun; discriminate.
Qed.

(** ** The loop over the files: lemmas *)

Lemma world_eq (w w' : World) :
  os w = os w' -> cwd w = cwd w' -> fs w = fs w' -> denied w = denied w' ->
  fs_calls w = fs_calls w' -> cout w = cout w' -> heap w = heap w' ->
  w = w'.
Proof. destruct w, w'; simpl; intros; subst; reflexivity. Qed.

Lemma add_lines_nil (w : World) : add_lines [] w = w.
Proof. apply world_eq; simpl; try reflexivity. apply app_nil_r. Qed.

Lemma add_lines_app (l1 l2 : list string) (w : World) :
  add_lines l2 (add_lines l1 w) = add_lines (l1 ++ l2) w.
Proof. apply world_eq; simpl; try reflexivity. symmetry. apply app_assoc. Qed.

Lemma addFile_run (tarball : Tar) (file : path) (w : World) :
  addFile tarball file w =
  match member_of w file with
  | Some m => (Ok (tarball ++ [m]), w)
  | None => (Throw (StdException (add_failure w file)), w)
  end.
Proof.
  unfold addFile, bind, get_os, member_of, add_failure, putFile, throw.
  destruct (file_name_in_archive (os w) file) as [name|]; [|reflexivity].
  destruct (stat w file) as [[[|] c | es |]|]; reflexivity.
Qed.

(** The loop of [close] over the file list: the files that can be added
    become members, in order; each of the others leaves a warning. *)
Lemma archive_loop (files : list path) :
  forall (tarball : Tar) (lines : list string) (w : World),
    for_each
      (fun tarball file =>
         try_catch_std (addFile tarball file)
           (fun what =>
              o <- get_os ;;
              print_line (archive_warning o file what) ;;;
              ret tarball))
      files tarball (add_lines lines w)
    = (Ok (tarball ++ omap (member_of w) files),
       add_lines (lines ++ archive_warnings w files) w).
Proof.
  induction files as [|file files IH]; intros tarball lines w.
  - simpl. unfold ret. rewrite !app_nil_r. reflexivity.
  - cbn [for_each]. unfold bind at 1, try_catch_std at 1.
    rewrite addFile_run.
    change (member_of (add_lines lines w) file) with (member_of w file).
    change (add_failure (add_lines lines w) file) with (add_failure w file).
    assert (omap (member_of w) (file :: files)
            = match member_of w file with
              | Some m => m :: omap (member_of w) files
              | None => omap (member_of w) files
              end) as -> by reflexivity.
    assert (archive_warnings w (file :: files)
            = match member_of w file with
              | Some _ => []
              | None => [archive_warning (os w) file (add_failure w file)]
              end ++ archive_warnings w files) as -> by reflexivity.
    destruct (member_of w file) as [m|] eqn:Em.
    + rewrite IH. rewrite <- app_assoc. reflexivity.
    + unfold bind, get_os, print_line, ret.
      change (add_line (archive_warning (os (add_lines lines w)) file
                          (add_failure w file)) (add_lines lines w))
        with (add_lines [archive_warning (os w) file (add_failure w file)]
                (add_lines lines w)).
      rewrite add_lines_app, IH. rewrite <- app_assoc. reflexivity.
Qed.

(** ** The archive block of [close]: lemmas *)

(** The block of [close] that builds and writes the archive always returns. *)
Lemma archive_block_run (dest : string) (files : list path) (w : World) :
  (if (0 <? length files)%nat
   then
     tarball <-
       for_each
         (fun tarball file =>
            try_catch_std (addFile tarball file)
              (fun what =>
                 o <- get_os ;;
                 print_line (archive_warning o file what) ;;;
                 ret tarball))
         files ([] : Tar) ;;
     let out := finish tarball in
     opened <- ofstream_open dest ;;
     if negb opened
     then print_line (output_warning dest)
     else iostreams_copy (gzip_compressor out) dest
   else ret tt) w
  = (Ok tt, written_world dest files w).
Proof.
  unfold written_world.
  destruct (0 <? length files)%nat; [|reflexivity].
  unfold bind at 1.
  rewrite <- (add_lines_nil w) at 1.
  rewrite archive_loop. cbn [app].
  unfold bind, ofstream_open.
  change (opens (add_lines (archive_warnings w files) w))
    with (opens w).
  change (cwd (add_lines (archive_warnings w files) w)) with (cwd w).
  change (os (add_lines (archive_warnings w files) w)) with (os w).
  destruct (opens w (resolve (cwd w) (parse_path (os w) dest))); reflexivity.
Qed.

(** The archive block touches neither the platform, the current directory,
    the refusals nor the objects. *)
Lemma written_world_frame (dest : string) (files : list path) (w : World) :
  os (written_world dest files w) = os w
  /\ cwd (written_world dest files w) = cwd w
  /\ denied (written_world dest files w) = denied w
  /\ heap (written_world dest files w) = heap w.
Proof.
  unfold written_world.
  destruct (0 <? length files)%nat; [|repeat split].
  destruct (opens _ _); repeat split.
Qed.

Lemma written_world_calls (dest : string) (files : list path) (w : World) :
  fs_calls (written_world dest files w)
  = fs_calls w
    ++ (if (0 <? length files)%nat
        then [OpenForWriting (resolve (cwd w) (parse_path (os w) dest))]
        else []).
Proof.
  unfold written_world.
  destruct (0 <? length files)%nat; [|symmetry; apply app_nil_r].
  destruct (opens _ _); reflexivity.
Qed.

(** What the archive block prints: a warning for each file that could not be
    added, and one more when the destination could not be opened. *)
Lemma written_world_cout (dest : string) (files : list path) (w : World) :
  cout (written_world dest files w)
  = cout w ++ archive_warnings w files
    ++ (if (0 <? length files)%nat
           && negb (opens w (resolve (cwd w) (parse_path (os w) dest)))
        then [output_warning dest]
        else []).
Proof.
  unfold written_world.
  destruct (0 <? length files)%nat eqn:El.
  - destruct (opens _ _); cbn [andb negb cout set_fs add_call add_line add_lines].
    + rewrite app_nil_r. reflexivity.
    + rewrite <- app_assoc. reflexivity.
  - destruct files; [|discriminate El]. cbn [andb archive_warnings flat_map app].
    symmetry. apply app_nil_r.
Qed.

Lemma opens_not_directory (w : World) (loc : list string) :
  opens w loc = true -> node_is_directory (lookup_node (fs w) loc) = false.
Proof.
  unfold opens, can_open_for_writing. intros H.
  apply andb_prop in H as [H _]. destruct loc; [discriminate|].
  apply andb_prop in H as [_ H]. apply negb_true_iff in H. exact H.
Qed.

(** The archive block leaves every entry but the destination alone. *)
Lemma written_world_other (dest : string) (files : list path) (w : World)
  (q : list string) :
  q <> resolve (cwd w) (parse_path (os w) dest) ->
  same_entry (lookup_node (fs w) q)
    (lookup_node (fs (written_world dest files w)) q).
Proof.
  intros Hne. unfold written_world.
  destruct (0 <? length files)%nat; [|apply same_entry_refl].
  destruct (opens _ _) eqn:Hopen; [|apply same_entry_refl].
  cbn [fs set_fs add_call add_lines]. rewrite put_node_twice.
  apply put_file_other; [|exact Hne].
  apply opens_not_directory. exact Hopen.
Qed.

(** A destination that could be opened holds the archive of the files that
    could be added. *)
Lemma written_world_archive (dest : string) (files : list path) (w : World) :
  files <> [] ->
  opens w (resolve (cwd w) (parse_path (os w) dest)) = true ->
  lookup_node (fs (written_world dest files w))
    (resolve (cwd w) (parse_path (os w) dest))
  = Some (File true (GzipTar (omap (member_of w) files))).
Proof.
  intros Hne Hopen. unfold written_world.
  destruct files as [|f files]; [congruence|].
  cbn [length Nat.ltb Nat.leb]. rewrite Hopen.
  cbn [fs set_fs add_call add_lines]. rewrite put_node_twice.
  apply lookup_put_node.
  unfold opens in Hopen. apply andb_prop in Hopen as [H _]. exact H.
Qed.

(** ** [remove_all]: how it runs *)

Lemma remove_all_succeeds (p : path) (w : World) :
  unhindered w (resolve (cwd w) p) = true ->
  ends_in_dot p = false ->
  resolve (cwd w) p <> [] ->
  remove_all p w
  = (Ok tt,
     set_fs (remove_node (resolve (cwd w) p) (fs w))
       (add_call (RemoveAll (resolve (cwd w) p)) w)).
Proof.
  intros Hu Hdot Hloc. unfold remove_all. cbv zeta.
  destruct (lookup_node (fs w) (resolve (cwd w) p)) as [n|]; [|reflexivity].
  rewrite (purge_unhindered (denied w) (node_height n) n).
  - rewrite Hdot. destruct (resolve (cwd w) p); [congruence | reflexivity].
  - lia.
  - intros l a Hl. apply (unhindered_refuses w _ _ _ Hu Hl).
Qed.

(** The two ways [remove_all] ends: the entry is gone, or the call throws
    and what is not below the entry is as it was. The call is recorded
    either way. *)
Lemma remove_all_cases (p : path) (w : World) :
  (resolve (cwd w) p <> []
   /\ remove_all p w
      = (Ok tt,
         set_fs (remove_node (resolve (cwd w) p) (fs w))
           (add_call (RemoveAll (resolve (cwd w) p)) w)))
  \/ exists remnant,
       remove_all p w
       = (Throw (remove_error (os w) p),
          set_fs remnant (add_call (RemoveAll (resolve (cwd w) p)) w))
       /\ forall q,
            is_under (resolve (cwd w) p) q = false ->
            same_entry (lookup_node (fs w) q) (lookup_node remnant q).
Proof.
  unfold remove_all. cbv zeta.
  destruct (lookup_node (fs w) (resolve (cwd w) p)) as [n|] eqn:Hn.
  - destruct (purge (denied w) (resolve (cwd w) p) n) as [n'|].
    + right. eexists. split; [reflexivity|].
      intros q Hq. apply set_node_outside. exact Hq.
    + destruct (ends_in_dot p || is_nil (resolve (cwd w) p)) eqn:Hend.
      * right. eexists. split; [reflexivity|].
        intros q Hq. apply set_node_outside. exact Hq.
      * left. split; [|reflexivity].
        apply orb_false_elim in Hend as [_ Hnil].
        destruct (resolve (cwd w) p); [discriminate | discriminate].
  - left. split; [|reflexivity].
    destruct (resolve (cwd w) p); [discriminate | discriminate].
Qed.

(** ** [close]: the ways it ends *)

Lemma node_cases (n : option node) :
  node_exists n = false
  \/ (exists rd c, n = Some (File rd c))
  \/ (exists es, n = Some (Dir es)).
Proof.
  destruct n as [[rd c | es |]|]; eauto.
Qed.

Section CloseRuns.

Variables (this : nat) (w : World) (r : MissionRecord).
Hypothesis Hlive : heap w !! this = Some r.

Lemma close_noop :
  is_recording (spec r) = false \/ is_closed r = true ->
  close this w = (Ok tt, w).
Proof.
  intros Hc. unfold close, bind, load. rewrite Hlive.
  destruct Hc as [-> | ->]; [reflexivity|].
  rewrite orb_true_r. reflexivity.
Qed.

Section Recording.

Hypothesis Hrec : is_recording (spec r) = true.
Hypothesis Hopen : is_closed r = false.

(** When [addFiles] throws, [close] throws the same and nothing has
    changed. *)
Lemma close_unlisted (e : exn) (w' : World) :
  addFiles [] (temp_dir (spec r)) w = (Throw e, w') ->
  close this w = (Throw e, w').
Proof.
  intros Hlist. unfold close.
  rewrite (bind_ok _ _ w w r) by (unfold load; rewrite Hlive; reflexivity).
  rewrite Hrec, Hopen. cbn [negb orb].
  apply bind_throw. exact Hlist.
Qed.

(** When [addFiles] returns, [close] ends as [remove_all] does, after the
    archive block. *)
Lemma close_listed (files : list path) :
  addFiles [] (temp_dir (spec r)) w = (Ok files, w) ->
  let w1 := written_world (destination (spec r)) files w in
  close this w =
  match remove_all (temp_dir (spec r)) w1 with
  | (Ok _, w2) => (Ok tt, set_heap (<[this := set_is_closed true r]> (heap w)) w2)
  | (Throw e, w2) => (Throw e, w2)
  | (Undefined, w2) => (Undefined, w2)
  end.
Proof.
  intros Hlist w1. unfold close.
  rewrite (bind_ok _ _ w w r) by (unfold load; rewrite Hlive; reflexivity).
  rewrite Hrec, Hopen. cbn [negb orb].
  rewrite (bind_ok _ _ w w files Hlist).
  rewrite (bind_ok _ _ w w1 tt) by apply archive_block_run.
  destruct (written_world_frame (destination (spec r)) files w)
    as (Hos & Hcwd & _ & Hheap).
  fold w1 in Hos, Hcwd, Hheap.
  unfold bind at 1.
  destruct (remove_all_cases (temp_dir (spec r)) w1)
    as [(_ & ->) | (remnant & -> & _)]; [|reflexivity].
  unfold bind, load, store. cbn [heap set_fs add_call].
  rewrite Hheap, Hlive. cbn [heap set_fs add_call]. rewrite Hheap. reflexivity.
Qed.

(** Where nothing is refused in the temporary directory, which is not the
    root and is not named by a path that ends in a dot, [close] returns once
    [addFiles] has. *)
Lemma close_done (files : list path) :
  addFiles [] (temp_dir (spec r)) w = (Ok files, w) ->
  unhindered w (resolve (cwd w) (temp_dir (spec r))) = true ->
  ends_in_dot (temp_dir (spec r)) = false ->
  resolve (cwd w) (temp_dir (spec r)) <> [] ->
  close this w
  = (Ok tt, closed_world this r (written_world (destination (spec r)) files w)).
Proof.
  intros Hlist Hfree Hdot Hloc.
  rewrite (close_listed files Hlist). cbv zeta.
  destruct (written_world_frame (destination (spec r)) files w)
    as (Hos & Hcwd & Hden & Hheap).
  rewrite remove_all_succeeds.
  - unfold closed_world. rewrite Hheap. reflexivity.
  - unfold unhindered. rewrite Hcwd, Hden. exact Hfree.
  - exact Hdot.
  - rewrite Hcwd. exact Hloc.
Qed.

Lemma close_returns (es : list (string * node)) :
  stat w (temp_dir (spec r)) = Some (Dir es) ->
  unhindered w (resolve (cwd w) (temp_dir (spec r))) = true ->
  ends_in_dot (temp_dir (spec r)) = false ->
  resolve (cwd w) (temp_dir (spec r)) <> [] ->
  close this w
  = (Ok tt,
     closed_world this r
       (written_world (destination (spec r))
          (collect (node_height (Dir es)) (temp_dir (spec r)) (Dir es)) w)).
Proof.
  intros Hdir Hfree Hdot Hloc.
  apply close_done; try assumption.
  apply (addFiles_unhindered [] _ _ _ Hdir Hfree).
Qed.

Lemma close_missing :
  node_exists (stat w (temp_dir (spec r))) = false ->
  close this w
  = (Throw (StdException (missing_directory_message (os w) (temp_dir (spec r)))),
     w).
Proof.
  intros Hst. apply close_unlisted. apply addFiles_missing. exact Hst.
Qed.

End Recording.

(** On a live object [close] ends in one of the four ways of [close_run]. *)
Lemma close_runs : close_run this w r (close this w).
Proof.
  destruct (is_recording (spec r)) eqn:Hrec.
  2:{ rewrite close_noop by (left; exact Hrec). constructor. left. exact Hrec. }
  destruct (is_closed r) eqn:Hcl.
  1:{ rewrite close_noop by (right; exact Hcl). constructor. right. exact Hcl. }
  destruct (addFiles [] (temp_dir (spec r)) w) as [[files | e |] w'] eqn:Hlist.
  - destruct (addFiles_returned _ _ _ _ _ Hlist) as (-> & _).
    rewrite (close_listed Hrec Hcl files Hlist). cbv zeta.
    destruct (written_world_frame (destination (spec r)) files w)
      as (Hos & Hcwd & _ & Hheap).
    destruct (remove_all_cases (temp_dir (spec r))
                (written_world (destination (spec r)) files w))
      as [(Hloc & Hrem) | (remnant & Hrem & Hframe)];
      rewrite ?Hos, ?Hcwd in *; rewrite Hrem.
    + replace (set_heap _ _)
        with (closed_world this r (written_world (destination (spec r)) files w)).
      * apply close_run_done; assumption.
      * unfold closed_world. rewrite Hcwd, Hheap. reflexivity.
    + apply (close_run_unremoved _ _ _ files remnant); assumption.
  - destruct (addFiles_threw _ _ _ _ _ Hlist) as (-> & (msg & ->) & _).
    rewrite (close_unlisted Hrec Hcl _ _ Hlist).
    apply close_run_unlisted; assumption.
  - exfalso. apply (addFiles_defined [] (temp_dir (spec r)) w).
    rewrite Hlist. reflexivity.
Qed.

End CloseRuns.

(** The cases of [close] on the live object of hypothesis [H]. *)
Ltac close_cases H :=
  let Hrun := fresh "Hrun" in
  let p := fresh "p" in
  pose proof (close_runs _ _ _ H) as Hrun;
  match type of Hrun with
  | close_run _ _ _ ?c => remember c as p eqn:Hclose in *
  end;
  destruct Hrun as
    [ Hidle
    | msg Hrec Hopen Hlist
    | listed remnant Hrec Hopen Hlist Hrem Hframe
    | listed Hrec Hopen Hlist Hloc ].

Lemma collect_regular (w : World) (fuel : nat) :
  forall (p : path) (es : list (string * node)),
    stat w p = Some (Dir es) ->
    Forall (fun f => exists rd c, stat w f = Some (File rd c))
      (collect fuel p (Dir es)).
Proof.
  induction fuel as [|fuel IH]; intros p es Hp; [constructor|].
  cbn [collect]. apply List.Forall_flat_map. apply List.Forall_forall.
  intros name Hin. apply filter_In in Hin as [_ Hname].
  apply negb_true_iff in Hname.
  pose proof (stat_path_append w p name es Hp Hname) as Hst.
  destruct (find_entry name es) as [[rd c | es' |]|]; try constructor.
  - eauto.
  - constructor.
  - apply IH. exact Hst.
Qed.

(** After a [close] that ran to its end the temporary directory is gone,
    with all below it. *)
Lemma closed_world_gone (this : nat) (r : MissionRecord) (w1 : World)
  (rest : list string) :
  resolve (cwd w1) (temp_dir (spec r)) <> [] ->
  lookup_node (fs (closed_world this r w1))
    (resolve (cwd (closed_world this r w1)) (temp_dir (spec r)) ++ rest) = None.
Proof.
  intros Hloc. unfold closed_world. cbn [fs cwd set_heap set_fs add_call].
  apply lookup_remove_node. exact Hloc.
Qed.

Lemma closed_world_missing (this : nat) (r : MissionRecord) (w1 : World) :
  resolve (cwd w1) (temp_dir (spec r)) <> [] ->
  node_exists (stat (closed_world this r w1) (temp_dir (spec r))) = false.
Proof.
  intros Hloc. unfold stat.
  pose proof (closed_world_gone this r w1 [] Hloc) as Hgone.
  rewrite app_nil_r in Hgone. rewrite Hgone. reflexivity.
Qed.

Lemma closed_world_view (this : nat) (r : MissionRecord) (dest : string)
  (files : list path) (w : World) :
  os (closed_world this r (written_world dest files w)) = os w
  /\ cwd (closed_world this r (written_world dest files w)) = cwd w
  /\ denied (closed_world this r (written_world dest files w)) = denied w
  /\ fs (closed_world this r (written_world dest files w))
     = remove_node (resolve (cwd w) (temp_dir (spec r)))
         (fs (written_world dest files w))
  /\ fs_calls (closed_world this r (written_world dest files w))
     = fs_calls (written_world dest files w)
       ++ [RemoveAll (resolve (cwd w) (temp_dir (spec r)))]
  /\ cout (closed_world this r (written_world dest files w))
     = cout (written_world dest files w)
  /\ heap (closed_world this r (written_world dest files w))
     = <[this := set_is_closed true r]> (heap w).
Proof.
  destruct (written_world_frame dest files w) as (Hos & Hcwd & Hden & Hheap).
  unfold closed_world.
  cbn [os cwd denied fs fs_calls cout heap set_heap set_fs add_call].
  rewrite Hos, Hcwd, Hden, Hheap. repeat split.
Qed.

(** ** A refusal at work *)

(** A session run from inside its temporary directory, which it names
    ["."]: the archive is written, the directory is emptied, the removal of
    the directory itself fails, and [close] throws and leaves the session
    unclosed. *)
Lemma close_from_inside_temp_dir :
  (exists what, fst (close 1 ex_world_dot) = Throw (StdException what))
  /\ archive_at (snd (close 1 ex_world_dot)) "../out.tar.gz"
     = Some [("commands.txt", Bytes "move 1")]
  /\ lookup_node (fs (snd (close 1 ex_world_dot))) ["work"] = Some (Dir [])
  /\ heap (snd (close 1 ex_world_dot)) !! 1%nat = Some ex_record_dot.
Proof. split; [eexists; reflexivity|]. repeat split. Qed.

(** ** The constructor *)

Lemma lookup_make_directories (loc : list string) :
  forall f f',
    make_directories loc f = Some f' ->
    node_is_directory (lookup_node f' loc) = true.
Proof.
  induction loc as [|c loc IH]; intros f f' H.
  - destruct f; inversion H; subst; reflexivity.
  - destruct f as [| es |]; try discriminate. cbn [make_directories] in H.
    destruct (find_entry c es) as [n|].
    + destruct (make_directories loc n) as [n'|] eqn:En; [|discriminate].
      inversion H; subst f'. cbn [lookup_node]. rewrite find_entry_put.
      apply (IH _ _ En).
    + destruct (make_directories loc (Dir [])) as [n'|] eqn:En; [|discriminate].
      inversion H; subst f'. cbn [lookup_node]. rewrite find_entry_put.
      apply (IH _ _ En).
Qed.

(** A session that records has its temporary directory once the constructor
    has returned, and is not closed. *)
Lemma ctor_creates_temp_dir (this : nat) (sp : MissionRecordSpec) (w w' : World) :
  is_recording sp = true ->
  MissionRecord_ctor this sp w = (Ok tt, w') ->
  heap w' !! this = Some {| is_closed := false; spec := sp |}
  /\ node_is_directory (stat w' (temp_dir sp)) = true.
Proof.
  intros Hrec. unfold MissionRecord_ctor, bind, store, create_directories.
  rewrite Hrec. cbn [cwd fs set_heap].
  destruct (make_directories (resolve (cwd w) (temp_dir sp)) (fs w)) as [f|] eqn:Ef;
    [|discriminate].
  intros H. inversion H; subst w'. clear H. split.
  - cbn [heap set_fs add_call set_heap]. apply lookup_insert_eq.
  - unfold stat. cbn [fs cwd set_fs add_call set_heap].
    apply (lookup_make_directories _ _ _ Ef).
Qed.

(** ** The claims *)

(** C1. For a recording session that is not closed yet, whenever [close]
    returns, the temporary directory and everything below it no longer
    exist. The removal is not skipped, whatever happened to the single files
    and to the destination on the way: once the files are listed, the last
    call [close] makes is [remove_all] on the temporary directory. *)
Theorem close_removes_temp_dir (this : nat) (w : World) (r : MissionRecord) :
  heap w !! this = Some r ->
  is_recording (spec r) = true ->
  is_closed r = false ->
  (fst (close this w) = Ok tt ->
   node_exists (stat (snd (close this w)) (temp_dir (spec r))) = false
   /\ forall rest,
        lookup_node (fs (snd (close this w)))
          (resolve (cwd (snd (close this w))) (temp_dir (spec r)) ++ rest)
        = None)
  /\ (forall files,
        addFiles [] (temp_dir (spec r)) w = (Ok files, w) ->
        exists calls,
          fs_calls (snd (close this w))
          = calls ++ [RemoveAll (resolve (cwd w) (temp_dir (spec r)))]).
Proof.
  intros Hr Hrec' Hcl. split.
  - close_cases Hr; cbn [fst snd]; try discriminate.
    + destruct Hidle; congruence.
    + intros _.
      destruct (written_world_frame (destination (spec r)) listed w)
        as (_ & Hcwd & _).
      rewrite <- Hcwd in Hloc.
      split; [|intros rest; apply closed_world_gone; exact Hloc].
      apply closed_world_missing. exact Hloc.
  - intros files Hfiles.
    close_cases Hr; try congruence.
    + destruct Hidle; congruence.
    + eexists. reflexivity.
    + destruct (closed_world_view this r (destination (spec r)) listed w)
        as (_ & _ & _ & _ & Hcalls & _).
      eexists. exact Hcalls.
Qed.

Lemma close_removes_temp_dir_witness :
  fst (close 1 ex_world_partial) = Ok tt
  /\ (exists what,
        cout (snd (close 1 ex_world_partial))
        = ["[warning] Unable to archive ./mission_records/u1/video.mp4: "
           +:+ what])
  /\ node_exists (stat (snd (close 1 ex_world_partial)) (temp_dir ex_spec)) = false
  /\ lookup_node (fs (snd (close 1 ex_world_partial)))
       ["mission_records"; "u1"; "commands.txt"] = None.
Proof.
  destruct (close_removes_temp_dir 1 ex_world_partial ex_record
              eq_refl eq_refl eq_refl) as [Hdone _].
  destruct (Hdone eq_refl) as [Hgone Hbelow].
  split; [reflexivity|]. split; [eexists; reflexivity|]. split; [exact Hgone|].
  apply (Hbelow ["commands.txt"]).
Defined.

(** C2. [close] is idempotent: when the session does not record or is closed
    already it returns at once and leaves the world as it is (no destination
    created, the temporary directory untouched); and after a [close] that
    returned, a second [close] changes nothing. *)
Theorem close_idempotent (this : nat) (w : World) (r : MissionRecord) :
  heap w !! this = Some r ->
  (is_recording (spec r) = false \/ is_closed r = true ->
   close this w = (Ok tt, w))
  /\ (forall w1, close this w = (Ok tt, w1) -> close this w1 = (Ok tt, w1)).
Proof.
  intros Hr. split; [apply close_noop; exact Hr|].
  intros w1 Hc.
  close_cases Hr; try discriminate; inversion Hc; subst w1.
  - apply (close_noop _ _ _ Hr Hidle).
  - apply (close_noop _ _ (set_is_closed true r)); [|right; reflexivity].
    unfold closed_world. cbn [heap set_heap]. apply lookup_insert_eq.
Qed.

Lemma close_idempotent_witness :
  close 1 (snd (close 1 ex_world)) = (Ok tt, snd (close 1 ex_world)).
Proof.
  destruct (close_idempotent 1 ex_world ex_record eq_refl) as [_ Htwice].
  apply Htwice. reflexivity.
Defined.

(** C9, as the code has it. A recording session that is not closed raises
    the error of the missing directory from [close] when its temporary
    directory does not exist, and the caller gets it. The enumeration raises
    that error only when its root does not exist, but that is not its only
    failure: it also fails, with the error of the library, when the root is
    a regular file and when something is refused at the root or below it (a
    directory that cannot be listed, an entry whose status cannot be read),
    and in no other case. On a directory where nothing is refused it
    returns, whatever the entries are, and lists only files that exist: an
    entry that [exists] does not find is passed over. *)
Theorem close_missing_directory_raises (this : nat) (w : World) (r : MissionRecord) :
  heap w !! this = Some r ->
  is_recording (spec r) = true ->
  is_closed r = false ->
  (node_exists (stat w (temp_dir (spec r))) = false ->
   close this w
   = (Throw (StdException
               ("Attempt to write to non-existent directory: "
                +:+ path_string (os w) (temp_dir (spec r)))), w))
  /\ (forall fileList directory w',
        addFiles fileList directory w
        = (Throw (StdException
                    ("Attempt to write to non-existent directory: "
                     +:+ path_string (os w) directory)), w') ->
        node_exists (stat w directory) = false)
  /\ (forall fileList directory e w',
        addFiles fileList directory w = (Throw e, w') ->
        node_exists (stat w directory) = false
        \/ (exists rd c, stat w directory = Some (File rd c))
        \/ unhindered w (resolve (cwd w) directory) = false)
  /\ (forall fileList directory es,
        stat w directory = Some (Dir es) ->
        unhindered w (resolve (cwd w) directory) = true ->
        exists files,
          addFiles fileList directory w = (Ok (fileList ++ files), w)
          /\ Forall (fun f => exists rd c, stat w f = Some (File rd c)) files).
Proof.
  intros Hr Hrec Hcl. split; [|split; [|split]].
  - apply close_missing; assumption.
  - intros fileList directory w' Hthrow.
    destruct (addFiles_threw _ _ _ _ _ Hthrow) as (_ & _ & Hmissing & _).
    apply Hmissing. reflexivity.
  - intros fileList directory e w' Hthrow.
    destruct (addFiles_threw _ _ _ _ _ Hthrow) as (_ & _ & _ & Hwhy).
    exact Hwhy.
  - intros fileList directory es Hd Hfree.
    exists (collect (node_height (Dir es)) directory (Dir es)). split.
    + apply addFiles_unhindered; assumption.
    + apply collect_regular. exact Hd.
Qed.

Lemma close_missing_directory_raises_witness :
  close 1 ex_world_missing
  = (Throw (StdException
      "Attempt to write to non-existent directory: ./mission_records/u1"),
     ex_world_missing)
  /\ fst (addFiles [] (temp_dir ex_spec) ex_world_partial)
     = Ok [ex_file "commands.txt"; ex_file "video.mp4"; ex_file "rewards.txt"].
Proof.
  destruct (close_missing_directory_raises 1 ex_world_missing ex_record
              eq_refl eq_refl eq_refl) as (Hraise & _).
  split; [apply Hraise; reflexivity | reflexivity].
Defined.

(** C9, as the specification has it, fails: the enumeration also fails on a
    root that exists. When the temporary directory is a regular file, and
    when a directory below it cannot be listed, [exists] finds the root,
    [addFiles] throws the error of the directory iterator, and [close]
    throws it on. *)
Lemma enumeration_fails_on_existing_root_counterexample :
  node_exists (stat ex_world_file_root (temp_dir ex_spec)) = true
  /\ (exists what,
        addFiles [] (temp_dir ex_spec) ex_world_file_root
        = (Throw (StdException what), ex_world_file_root)
        /\ close 1 ex_world_file_root
           = (Throw (StdException what), ex_world_file_root))
  /\ node_is_directory (stat ex_world_unlistable (temp_dir ex_spec)) = true
  /\ (exists what,
        addFiles [] (temp_dir ex_spec) ex_world_unlistable
        = (Throw (StdException what), ex_world_unlistable)
        /\ close 1 ex_world_unlistable
           = (Throw (StdException what), ex_world_unlistable))
  /\ ~ (forall fileList directory w e,
          fst (addFiles fileList directory w) = Throw e ->
          node_exists (stat w directory) = false).
Proof.
  split; [reflexivity|].
  split; [eexists; split; reflexivity|].
  split; [reflexivity|].
  split; [eexists; split; reflexivity|].
  intros Honly.
  specialize (Honly [] (temp_dir ex_spec) ex_world_file_root _ eq_refl).
  discriminate Honly.
Qed.

(** C10. When [close] ends by raising the error of the missing directory,
    the world is as it was before the call: the object is still not closed,
    no removal was attempted, and a later [close] starts afresh. *)
Theorem close_missing_directory_atomic (this : nat) (w w' : World)
  (r : MissionRecord) :
  heap w !! this = Some r ->
  close this w
  = (Throw (StdException (missing_directory_message (os w) (temp_dir (spec r)))),
     w') ->
  w' = w
  /\ heap w' !! this = Some r
  /\ is_closed r = false
  /\ fs_calls w' = fs_calls w
  /\ removals (resolve (cwd w) (temp_dir (spec r))) w'
     = removals (resolve (cwd w) (temp_dir (spec r))) w
  /\ close this w' = close this w.
Proof.
  intros Hr Hc.
  assert (w' = w /\ is_closed r = false) as [-> Hcl].
  { close_cases Hr; try discriminate; inversion Hc; auto. }
  repeat split; try reflexivity; assumption.
Qed.

Lemma close_missing_directory_atomic_witness :
  heap ex_world_missing !! 1%nat = Some ex_record
  /\ fs_calls ex_world_missing = []
  /\ close 1 ex_world_missing = close 1 ex_world_missing.
Proof.
  destruct (close_missing_directory_atomic 1 ex_world_missing ex_world_missing
              ex_record eq_refl eq_refl) as (_ & Hh & _ & Hc & _ & Hre).
  split; [exact Hh | split; [exact Hc | exact Hre]].
Defined.

(** ** The destructor: lemmas *)

(** [close] on a live object returns or throws a [std::exception]. *)
Lemma close_outcome (this : nat) (w : World) (r : MissionRecord) :
  heap w !! this = Some r ->
  exists w',
    close this w = (Ok tt, w')
    \/ exists what, close this w = (Throw (StdException what), w').
Proof.
  intros Hr. close_cases Hr; unfold remove_error; eauto.
Qed.

(** [close] changes no object but its own. *)
Lemma close_heap_other (this other : nat) (w : World) (r : MissionRecord) :
  heap w !! this = Some r ->
  other <> this ->
  heap (snd (close this w)) !! other = heap w !! other.
Proof.
  intros Hr Hne.
  close_cases Hr; cbn [snd]; try reflexivity.
  - cbn [heap set_fs add_call].
    destruct (written_world_frame (destination (spec r)) listed w)
      as (_ & _ & _ & ->).
    reflexivity.
  - destruct (closed_world_view this r (destination (spec r)) listed w)
      as (_ & _ & _ & _ & _ & _ & ->).
    apply lookup_insert_ne. congruence.
Qed.

(** [close] changes neither the platform, the current directory nor the
    refusals. *)
Lemma close_frame (this : nat) (w : World) (r : MissionRecord) :
  heap w !! this = Some r ->
  os (snd (close this w)) = os w
  /\ cwd (snd (close this w)) = cwd w
  /\ denied (snd (close this w)) = denied w.
Proof.
  intros Hr.
  close_cases Hr; cbn [snd]; try (repeat split; reflexivity).
  - cbn [os cwd denied set_fs add_call].
    destruct (written_world_frame (destination (spec r)) listed w)
      as (-> & -> & -> & _).
    repeat split.
  - destruct (closed_world_view this r (destination (spec r)) listed w)
      as (-> & -> & -> & _).
    repeat split.
Qed.

Lemma dtor_closed (this : nat) (w : World) (r : MissionRecord) :
  heap w !! this = Some r ->
  is_closed r = true ->
  MissionRecord_dtor this w = (Ok tt, w).
Proof.
  intros Hr Hcl. unfold MissionRecord_dtor, try_catch_all, bind, load.
  rewrite Hr, Hcl. reflexivity.
Qed.

Lemma dtor_open (this : nat) (w : World) (r : MissionRecord) :
  heap w !! this = Some r ->
  is_closed r = false ->
  MissionRecord_dtor this w =
  match close this w with
  | (Ok u, w') => (Ok u, w')
  | (Throw (StdException what), w') =>
      (Ok tt, add_line ("Exception in closing of MissionRecord: " +:+ what) w')
  | (Throw OtherException, w') =>
      (Ok tt, add_line "Unknown exception in closing of MissionRecord." w')
  | (Undefined, w') => (Undefined, w')
  end.
Proof.
  intros Hr Hcl. unfold MissionRecord_dtor, try_catch_all, bind at 1, load.
  rewrite Hr, Hcl. cbn [negb].
  destruct (close this w) as [[u | [what|] |] w']; reflexivity.
Qed.

Lemma dtor_inert (a : nat) (w : World) (r : MissionRecord) :
  heap w !! a = Some r ->
  is_recording (spec r) = false ->
  MissionRecord_dtor a w = (Ok tt, w).
Proof.
  intros Ha Hrec. destruct (is_closed r) eqn:Hcl.
  - apply (dtor_closed _ _ _ Ha Hcl).
  - rewrite (dtor_open _ _ _ Ha Hcl), (close_noop _ _ _ Ha (or_introl Hrec)).
    reflexivity.
Qed.

Lemma dtor_heap_other (this other : nat) (w : World) (r : MissionRecord) :
  heap w !! this = Some r ->
  other <> this ->
  heap (snd (MissionRecord_dtor this w)) !! other = heap w !! other.
Proof.
  intros Hr Hne. destruct (is_closed r) eqn:Hcl.
  - rewrite (dtor_closed _ _ _ Hr Hcl). reflexivity.
  - rewrite (dtor_open _ _ _ Hr Hcl).
    pose proof (close_heap_other _ _ _ _ Hr Hne) as Hc.
    destruct (close this w) as [[u | [what|] |] w']; exact Hc.
Qed.

(** C6. The destructor calls [close] on a session that is not closed, and
    whatever [close] throws, a [std::exception] or anything else, is caught
    there and ends as a line on [std::cout]: the destructor never throws.
    On a session that is closed it does nothing. *)
Theorem destructor_never_throws (this : nat) (w : World) (r : MissionRecord) :
  heap w !! this = Some r ->
  (forall (body : M unit) (w0 : World) (e : exn),
     fst (try_catch_all body
            (fun what =>
               print_line ("Exception in closing of MissionRecord: " +:+ what))
            (print_line "Unknown exception in closing of MissionRecord.") w0)
     <> Throw e)
  /\ fst (MissionRecord_dtor this w) = Ok tt
  /\ (is_closed r = true -> MissionRecord_dtor this w = (Ok tt, w))
  /\ (is_closed r = false ->
      MissionRecord_dtor this w =
      match close this w with
      | (Ok u, w') => (Ok u, w')
      | (Throw (StdException what), w') =>
          (Ok tt,
           add_line ("Exception in closing of MissionRecord: " +:+ what) w')
      | (Throw OtherException, w') =>
          (Ok tt, add_line "Unknown exception in closing of MissionRecord." w')
      | (Undefined, w') => (Undefined, w')
      end).
Proof.
  intros Hr. split; [|split; [|split]].
  - intros body w0 e. unfold try_catch_all.
    destruct (body w0) as [[u | [what|] |] w']; discriminate.
  - destruct (is_closed r) eqn:Hcl.
    + rewrite (dtor_closed _ _ _ Hr Hcl). reflexivity.
    + rewrite (dtor_open _ _ _ Hr Hcl).
      destruct (close_outcome _ _ _ Hr) as (w' & [-> | (what & ->)]); reflexivity.
  - apply dtor_closed. exact Hr.
  - apply dtor_open. exact Hr.
Qed.

Lemma destructor_never_throws_witness :
  MissionRecord_dtor 1 ex_world_missing
  = (Ok tt,
     add_line
       ("Exception in closing of MissionRecord: "
        +:+ "Attempt to write to non-existent directory: ./mission_records/u1")
       ex_world_missing).
Proof.
  destruct (destructor_never_throws 1 ex_world_missing ex_record eq_refl)
    as (_ & _ & _ & Hopen).
  rewrite (Hopen eq_refl). reflexivity.
Defined.

(** ** What [close] leaves alone: lemmas *)

(** Whatever the end of [close], an entry that is neither the destination
    nor in the temporary directory is left alone. *)
Lemma close_other_entries (this : nat) (w : World) (r : MissionRecord)
  (q : list string) :
  heap w !! this = Some r ->
  is_under (resolve (cwd w) (temp_dir (spec r))) q = false ->
  q <> resolve (cwd w) (parse_path (os w) (destination (spec r))) ->
  same_entry (lookup_node (fs w) q) (lookup_node (fs (snd (close this w))) q).
Proof.
  intros Hr Hunder Hne.
  close_cases Hr; cbn [snd]; try apply same_entry_refl.
  - cbn [fs set_fs add_call].
    apply (same_entry_trans _
             (lookup_node (fs (written_world (destination (spec r)) listed w)) q)).
    + apply written_world_other. exact Hne.
    + apply Hframe. exact Hunder.
  - destruct (closed_world_view this r (destination (spec r)) listed w)
      as (_ & _ & _ & -> & _).
    apply (same_entry_trans _
             (lookup_node (fs (written_world (destination (spec r)) listed w)) q)).
    + apply written_world_other. exact Hne.
    + apply remove_node_outside. exact Hunder.
Qed.

(** When the archive block writes nothing, the same holds of the
    destination. *)
Lemma close_unwritten_entries (this : nat) (w : World) (r : MissionRecord)
  (files : list path) (q : list string) :
  heap w !! this = Some r ->
  is_recording (spec r) = true ->
  is_closed r = false ->
  addFiles [] (temp_dir (spec r)) w = (Ok files, w) ->
  files = []
  \/ opens w (resolve (cwd w) (parse_path (os w) (destination (spec r)))) = false ->
  is_under (resolve (cwd w) (temp_dir (spec r))) q = false ->
  same_entry (lookup_node (fs w) q) (lookup_node (fs (snd (close this w))) q).
Proof.
  intros Hr Hrec' Hcl Hfiles Hskip Hunder.
  assert (fs (written_world (destination (spec r)) files w) = fs w) as Hfs.
  { unfold written_world. destruct Hskip as [-> | ->]; [reflexivity|].
    destruct (0 <? length files)%nat; reflexivity. }
  close_cases Hr; cbn [snd]; try apply same_entry_refl.
  - assert (listed = files) as -> by congruence.
    cbn [fs set_fs add_call]. rewrite <- Hfs. apply Hframe. exact Hunder.
  - assert (listed = files) as -> by congruence.
    destruct (closed_world_view this r (destination (spec r)) files w)
      as (_ & _ & _ & -> & _).
    rewrite Hfs. apply remove_node_outside. exact Hunder.
Qed.

(** Once [addFiles] has returned, [close] gets to the end of the archive
    block and calls [remove_all]: what it prints and the calls it makes are
    the same whether [remove_all] then throws or not. *)
Lemma close_listed_view (this : nat) (w : World) (r : MissionRecord)
  (files : list path) :
  heap w !! this = Some r ->
  is_recording (spec r) = true ->
  is_closed r = false ->
  addFiles [] (temp_dir (spec r)) w = (Ok files, w) ->
  (exists w', close this w = (Ok tt, w')
   \/ close this w = (Throw (remove_error (os w) (temp_dir (spec r))), w'))
  /\ cout (snd (close this w))
     = cout (written_world (destination (spec r)) files w)
  /\ fs_calls (snd (close this w))
     = fs_calls (written_world (destination (spec r)) files w)
       ++ [RemoveAll (resolve (cwd w) (temp_dir (spec r)))]
  /\ (forall q,
        is_under (resolve (cwd w) (temp_dir (spec r))) q = false ->
        same_entry
          (lookup_node (fs (written_world (destination (spec r)) files w)) q)
          (lookup_node (fs (snd (close this w))) q))
  /\ (fst (close this w) = Ok tt ->
      snd (close this w)
      = closed_world this r (written_world (destination (spec r)) files w)
      /\ resolve (cwd w) (temp_dir (spec r)) <> []).
Proof.
  intros Hr Hrec' Hcl Hfiles.
  close_cases Hr; try (destruct Hidle; congruence); try congruence.
  - assert (listed = files) as -> by congruence. cbn [fst snd].
    split; [eauto|]. split; [reflexivity|]. split; [reflexivity|].
    split; [exact Hframe | discriminate].
  - assert (listed = files) as -> by congruence. cbn [fst snd].
    destruct (closed_world_view this r (destination (spec r)) files w)
      as (_ & _ & _ & Hfs & Hcalls & Hcout & _).
    split; [eauto|]. split; [exact Hcout|]. split; [exact Hcalls|]. split.
    + intros q Hq. rewrite Hfs. apply remove_node_outside. exact Hq.
    + intros _. split; [reflexivity | exact Hloc].
Qed.



(** ** What [collect] gives: lemmas *)

Lemma find_entry_in (name : string) (es : list (string * node)) (m : node) :
  find_entry name es = Some m -> In name (map fst es).
Proof.
  induction es as [|[k n] es IH]; simpl; [discriminate|].
  destruct (String.eqb k name) eqn:E; intros H.
  - left. apply String.eqb_eq. exact E.
  - right. apply IH. exact H.
Qed.

Lemma elements_below (p : path) (names : list string) :
  elements (below p names) = elements p ++ names.
Proof.
  revert p. induction names as [|n names IH]; intros p.
  - symmetry. apply app_nil_r.
  - change (below p (n :: names)) with (below (path_append p n) names).
    rewrite IH. cbn [path_append elements]. rewrite <- app_assoc. reflexivity.
Qed.

Lemma resolve_below (d : list string) (p : path) (names : list string) :
  Forall (fun name => is_dot_name name = false) names ->
  resolve d (below p names) = resolve d p ++ names.
Proof.
  revert p. induction names as [|a names IH]; intros p Hnames.
  - symmetry. apply app_nil_r.
  - inversion Hnames as [|? ? Ha Hrest]; subst.
    change (below p (a :: names)) with (below (path_append p a) names).
    rewrite (IH _ Hrest), (resolve_path_append _ _ _ Ha), <- app_assoc.
    reflexivity.
Qed.

Lemma stat_below (w : World) (p : path) (n : node) (names : list string) :
  stat w p = Some n ->
  Forall (fun name => is_dot_name name = false) names ->
  stat w (below p names) = lookup_node n names.
Proof.
  unfold stat. intros Hp Hnames.
  rewrite (resolve_below _ _ _ Hnames), lookup_node_app, Hp. reflexivity.
Qed.

(** Every regular file below the directory is collected. *)
Lemma collect_complete (fuel : nat) :
  forall (p : path) (es : list (string * node)) (names : list string)
         (rd : bool) (c : file_content),
    (node_height (Dir es) <= fuel)%nat ->
    Forall (fun name => is_dot_name name = false) names ->
    lookup_node (Dir es) names = Some (File rd c) ->
    In (below p names) (collect fuel p (Dir es)).
Proof.
  induction fuel as [|fuel IH]; intros p es names rd c Hh Hnames Hl.
  - simpl in Hh. lia.
  - destruct names as [|a names]; [discriminate|].
    inversion Hnames as [|? ? Ha Hrest]; subst.
    cbn [lookup_node] in Hl.
    destruct (find_entry a es) as [m|] eqn:Ea; [|discriminate].
    cbn [collect]. apply in_flat_map. exists a. split.
    + apply filter_In. split; [apply (find_entry_in _ _ _ Ea)|].
      rewrite Ha. reflexivity.
    + rewrite Ea.
      change (below p (a :: names)) with (below (path_append p a) names).
      destruct m as [rd' c' | es' |].
      * destruct names; [left; reflexivity | discriminate].
      * apply (IH _ _ _ rd c); [|exact Hrest | exact Hl].
        apply find_entry_height in Ea. lia.
      * destruct names; discriminate.
Qed.

(** Whatever is collected is a regular file below the directory. *)
Lemma collect_sound (fuel : nat) :
  forall (p : path) (es : list (string * node)) (f : path),
    In f (collect fuel p (Dir es)) ->
    exists names rd c,
      names <> []
      /\ Forall (fun name => is_dot_name name = false) names
      /\ f = below p names
      /\ lookup_node (Dir es) names = Some (File rd c).
Proof.
  induction fuel as [|fuel IH]; intros p es f Hin; [destruct Hin|].
  cbn [collect] in Hin. apply in_flat_map in Hin as (a & Ha & Hf).
  apply filter_In in Ha as [_ Ha]. apply negb_true_iff in Ha.
  destruct (find_entry a es) as [[rd c | es' |]|] eqn:Ea; try destruct Hf.
  - exists [a], rd, c. subst f. repeat split; try discriminate.
    + constructor; [exact Ha | constructor].
    + cbn [lookup_node]. rewrite Ea. reflexivity.
  - destruct H.
  - destruct (IH _ _ _ Hf) as (names & rd & c & Hne & Hnames & -> & Hl).
    exists (a :: names), rd, c. repeat split; try discriminate.
    + constructor; assumption.
    + cbn [lookup_node]. rewrite Ea. exact Hl.
Qed.

Lemma distinct_NoDup (l : list string) : distinct l = true -> List.NoDup l.
Proof.
  induction l as [|x l IH]; intros H; [constructor|].
  cbn [distinct] in H. apply andb_prop in H as [Hx Hl].
  constructor; [|apply IH; exact Hl].
  intros Hin. apply negb_true_iff in Hx.
  assert (existsb (String.eqb x) l = true) as Hex.
  { apply existsb_exists. exists x. split.
    - exact Hin.
    - apply String.eqb_refl. }
  congruence.
Qed.

Lemma find_entry_well_formed (name : string) (es : list (string * node))
  (m : node) :
  well_formed (Dir es) = true ->
  find_entry name es = Some m ->
  well_formed m = true.
Proof.
  rewrite well_formed_Dir. intros H Hf. apply andb_prop in H as [_ Hall].
  rewrite forallb_forall in Hall.
  induction es as [|[k n] es IH]; [discriminate|].
  cbn [find_entry] in Hf. destruct (String.eqb k name).
  - inversion Hf; subst. apply (Hall (k, m)). left. reflexivity.
  - apply IH; [|exact Hf]. intros e He. apply Hall. right. exact He.
Qed.

Lemma NoDup_flat_map_disjoint {A B : Type} (g : A -> list B) (l : list A) :
  List.NoDup l ->
  (forall a, In a l -> List.NoDup (g a)) ->
  (forall a b x, In a l -> In b l -> In x (g a) -> In x (g b) -> a = b) ->
  List.NoDup (flat_map g l).
Proof.
  induction l as [|a l IH]; intros Hl Hg Hd; [constructor|].
  inversion Hl as [|? ? Ha Hl']; subst.
  cbn [flat_map]. apply List.NoDup_app.
  - apply Hg. left. reflexivity.
  - apply IH; [exact Hl' | |].
    + intros b Hb. apply Hg. right. exact Hb.
    + intros b b' x Hb Hb'. apply Hd; right; assumption.
  - intros x Hx Hx'. apply in_flat_map in Hx' as (b & Hb & Hxb).
    assert (a = b) as ->.
    { apply (Hd a b x);
        [left; reflexivity | right; exact Hb | exact Hx | exact Hxb]. }
    apply Ha. exact Hb.
Qed.

(** In a well-formed tree no file is collected twice. *)
Lemma collect_NoDup (fuel : nat) :
  forall (p : path) (es : list (string * node)),
    well_formed (Dir es) = true ->
    List.NoDup (collect fuel p (Dir es)).
Proof.
  induction fuel as [|fuel IH]; intros p es Hwf; [constructor|].
  cbn [collect]. apply NoDup_flat_map_disjoint.
  - apply List.NoDup_filter. apply distinct_NoDup.
    rewrite well_formed_Dir in Hwf. apply andb_prop in Hwf as [Hd _]. exact Hd.
  - intros a _.
    destruct (find_entry a es) as [[rd c | es' |]|] eqn:Ea; try constructor.
    + intros H. destruct H. 
    + constructor.
    + apply IH. apply (find_entry_well_formed _ _ _ Hwf Ea).
  - intros a b x _ _ Hxa Hxb.
    assert (forall n, 
              In x match find_entry n es with
                   | Some (File _ _) => [path_append p n]
                   | Some (Dir es') => collect fuel (path_append p n) (Dir es')
                   | _ => []
                   end ->
              exists rest, elements x = elements p ++ n :: rest) as Hprefix.
    { intros n Hn.
      destruct (find_entry n es) as [[rd c | es' |]|]; try destruct Hn.
      - exists []. subst x. reflexivity.
      - destruct H.
      - destruct (collect_sound _ _ _ _ Hn) as (names & _ & _ & _ & _ & -> & _).
        exists names. rewrite elements_below. cbn [path_append elements].
        rewrite <- app_assoc. reflexivity. }
    destruct (Hprefix a Hxa) as (ra & Hea).
    destruct (Hprefix b Hxb) as (rb & Heb).
    rewrite Hea in Heb. apply app_inv_head in Heb. congruence.
Qed.

(** ** Strings and names: lemmas *)

Lemma has_char_replace (a b : ascii) (s : string) :
  a <> b -> has_char a (replace a b s) = false.
Proof.
  intros Hab. induction s as [|d s IH]; [reflexivity|].
  cbn [replace has_char]. rewrite IH, orb_false_r.
  destruct (Ascii.eqb d a) eqn:E.
  - apply Ascii.eqb_neq. congruence.
  - exact E.
Qed.

Lemma has_char_substring (c : ascii) (s : string) :
  forall n m, has_char c s = false -> has_char c (String.substring n m s) = false.
Proof.
  induction s as [|d s IH]; intros n m H.
  - destruct n, m; reflexivity.
  - cbn [has_char] in H. apply orb_false_elim in H as [Hd Hs].
    destruct n as [|n].
    + destruct m as [|m]; [reflexivity|].
      cbn [String.substring has_char]. rewrite Hd. apply IH. exact Hs.
    + cbn [String.substring]. apply IH. exact Hs.
Qed.

Lemma replace_absent (a b : ascii) (s : string) :
  has_char a s = false -> replace a b s = s.
Proof.
  induction s as [|d s IH]; intros H; [reflexivity|].
  cbn [has_char] in H. apply orb_false_elim in H as [Hd Hs].
  cbn [replace]. rewrite Hd, (IH Hs). reflexivity.
Qed.

Lemma replace_append (a b : ascii) (s t : string) :
  replace a b (s +:+ t) = replace a b s +:+ replace a b t.
Proof.
  induction s as [|d s IH]; [reflexivity|].
  simpl. rewrite IH. reflexivity.
Qed.

Lemma length_replace (a b : ascii) (s : string) :
  String.length (replace a b s) = String.length s.
Proof.
  induction s as [|d s IH]; [reflexivity|]. cbn [replace String.length].
  rewrite IH. reflexivity.
Qed.

Lemma replace_join (o : platform) (l : list string) :
  forallb (fun n => negb (has_char "\" n)) l = true ->
  replace "\" "/" (join_elements (sep_string o) l) = join_elements "/" l.
Proof.
  induction l as [|e l IH]; intros H; [reflexivity|].
  cbn [forallb] in H. apply andb_prop in H as [He Hl].
  apply negb_true_iff in He.
  destruct l as [|e' l]; [apply replace_absent; exact He|].
  change (join_elements (sep_string o) (e :: e' :: l))
    with (e +:+ sep_string o +:+ join_elements (sep_string o) (e' :: l)).
  change (join_elements "/" (e :: e' :: l))
    with (e +:+ "/" +:+ join_elements "/" (e' :: l)).
  rewrite !replace_append, (replace_absent _ _ _ He), (IH Hl).
  destruct o; reflexivity.
Qed.

Lemma substring_all (s : string) (m : nat) :
  (String.length s <= m)%nat -> String.substring 0 m s = s.
Proof.
  revert m. induction s as [|d s IH]; intros m H.
  - destruct m; reflexivity.
  - destruct m as [|m]; [simpl in H; lia|].
    cbn [String.substring]. rewrite IH; [reflexivity | simpl in H; lia].
Qed.

Lemma plain_name_split (n : string) :
  plain_name n = true -> is_dot_name n = false /\ has_char "\" n = false.
Proof.
  unfold plain_name. intros H. apply andb_prop in H as [H1 H2].
  apply negb_true_iff in H1. apply negb_true_iff in H2. auto.
Qed.

(** [normalize] keeps ordinary names that follow what is already there. *)
Lemma normalize_loop_plain (o : platform) (rest : list string) :
  forall temp,
    temp <> [] ->
    forallb plain_name rest = true ->
    normalize_loop o false temp rest = temp ++ rest.
Proof.
  induction rest as [|e rest IH]; intros temp Hne H.
  - symmetry. apply app_nil_r.
  - cbn [forallb] in H. apply andb_prop in H as [He Hrest].
    apply plain_name_split in He as [Hdot _].
    unfold is_dot_name in Hdot. apply orb_false_elim in Hdot as [Hd Hdd].
    cbn [normalize_loop]. rewrite Hd, Hdd. cbn [andb].
    assert (forall X : list string,
              match List.last (map Some temp) None with
              | Some _ => X
              | None => X
              end = X) as Hlast.
    { intros X. destruct (List.last (map Some temp) None); reflexivity. }
    rewrite Hlast, IH; [| destruct temp; discriminate | exact Hrest].
    rewrite <- app_assoc. reflexivity.
Qed.

Lemma normalize_plain (o : platform) (root e0 : string) (rest : list string) :
  forallb plain_name rest = true ->
  normalize o (Path root (e0 :: rest)) = Path root (e0 :: rest).
Proof.
  intros H. unfold normalize. cbn [elements root_path normalize_loop].
  rewrite andb_false_r. cbn [map List.last app].
  rewrite (normalize_loop_plain o rest [e0]) by (discriminate || exact H).
  reflexivity.
Qed.

(** The name of a path made of ordinary names after its first element: the
    elements joined by slashes, cut by [substr(2, size)]. *)
Lemma file_name_joined (o : platform) (p : path) (e0 : string)
  (rest : list string) :
  elements p = e0 :: rest ->
  has_char "\" e0 = false ->
  forallb plain_name rest = true ->
  file_name_in_archive o p
  = substr 2 (String.length (join_elements "/" (e0 :: rest)))
      (join_elements "/" (e0 :: rest)).
Proof.
  intros Hel He0 Hrest. unfold file_name_in_archive, relative_path.
  rewrite Hel, (normalize_plain o "" e0 rest Hrest).
  assert (path_string o (Path "" (e0 :: rest))
          = join_elements (sep_string o) (e0 :: rest)) as -> by reflexivity.
  rewrite replace_join; [reflexivity|].
  cbn [forallb]. rewrite He0. cbn [negb andb].
  apply forallb_forall. intros n Hn.
  rewrite forallb_forall in Hrest.
  destruct (plain_name_split n (Hrest n Hn)) as [_ ->]. reflexivity.
Qed.
(** The name below a temporary directory [./d1/.../dk]. *)
Lemma file_name_below_dot (o : platform) (directory : path)
  (dirs names : list string) :
  elements directory = dot :: dirs ->
  names <> [] ->
  forallb plain_name dirs = true ->
  forallb plain_name names = true ->
  file_name_in_archive o (below directory names)
  = Some (join_elements "/" (dirs ++ names)).
Proof.
  intros Hel Hne Hdirs Hnames.
  assert (elements (below directory names) = dot :: (dirs ++ names)) as Hb.
  { rewrite elements_below, Hel. reflexivity. }
  assert (forallb plain_name (dirs ++ names) = true) as Hplain.
  { rewrite forallb_app, Hdirs, Hnames. reflexivity. }
  rewrite (file_name_joined o _ dot (dirs ++ names) Hb eq_refl Hplain).
  destruct (dirs ++ names) as [|x l] eqn:E.
  { apply app_eq_nil in E as [_ ->]. congruence. }
  change (join_elements "/" (dot :: x :: l))
    with (String "." (String "/" (join_elements "/" (x :: l)))).
  unfold substr. cbn [String.length Nat.ltb Nat.leb String.substring].
  rewrite substring_all by lia. reflexivity.
Qed.

Lemma strip_prefix_app (l rest : list string) :
  strip_prefix l (l ++ rest) = Some rest.
Proof.
  induction l as [|a l IH]; [reflexivity|].
  cbn [app strip_prefix]. rewrite String.eqb_refl. exact IH.
Qed.

Lemma relative_to_below (p : path) (names : list string) :
  relative_to p (below p names) = Some (join_elements "/" names).
Proof.
  unfold relative_to. rewrite elements_below, strip_prefix_app. reflexivity.
Qed.

Lemma plain_tree_Dir (es : list (string * node)) :
  plain_tree (Dir es) =
  forallb (fun e => plain_name (fst e) && plain_tree (snd e)) es.
Proof.
  simpl. induction es as [|[name m] es IH]; [reflexivity|].
  simpl. rewrite IH. reflexivity.
Qed.

Lemma plain_tree_entry (name : string) (es : list (string * node)) (m : node) :
  plain_tree (Dir es) = true ->
  find_entry name es = Some m ->
  plain_name name = true /\ plain_tree m = true.
Proof.
  rewrite plain_tree_Dir. intros H Hf.
  induction es as [|[k n] es IH]; [discriminate|].
  cbn [forallb fst snd] in H. apply andb_prop in H as [Hk Hes].
  cbn [find_entry] in Hf. destruct (String.eqb k name) eqn:E.
  - apply String.eqb_eq in E; subst k. inversion Hf; subst n.
    apply andb_prop in Hk. exact Hk.
  - apply IH; assumption.
Qed.

(** In a tree of ordinary names, what is found is found through ordinary
    names. *)
Lemma plain_tree_lookup (names : list string) :
  forall (n m : node),
    plain_tree n = true ->
    lookup_node n names = Some m ->
    forallb plain_name names = true.
Proof.
  induction names as [|a names IH]; intros n m Hplain Hl; [reflexivity|].
  destruct n as [| es |]; try discriminate. cbn [lookup_node] in Hl.
  destruct (find_entry a es) as [k|] eqn:Ea; [|discriminate].
  destruct (plain_tree_entry _ _ _ Hplain Ea) as [Ha Hk].
  cbn [forallb]. rewrite Ha. apply (IH k m Hk Hl).
Qed.

(** ** The archive at the destination: lemmas *)

Lemma omap_member_cons (w : World) (f : path) (files : list path) :
  omap (member_of w) (f :: files)
  = match member_of w f with
    | Some m => m :: omap (member_of w) files
    | None => omap (member_of w) files
    end.
Proof. reflexivity. Qed.

(** The members of the archive, one for each file that can be added. *)
Lemma omap_members (w : World) (R : path -> string * file_content -> Prop)
  (files : list path) :
  (forall f m, In f files -> member_of w f = Some m -> R f m) ->
  Forall2 R (List.filter (can_add w) files) (omap (member_of w) files).
Proof.
  induction files as [|f files IH]; intros HR; [constructor|].
  rewrite omap_member_cons. cbn [List.filter]. unfold can_add at 1.
  destruct (member_of w f) as [m|] eqn:Em.
  - constructor.
    + apply HR; [left; reflexivity | exact Em].
    + apply IH. intros f' m' Hin. apply HR. right. exact Hin.
  - apply IH. intros f' m' Hin. apply HR. right. exact Hin.
Qed.

Lemma filter_all_added (w : World) (files : list path) :
  forallb (can_add w) files = true -> List.filter (can_add w) files = files.
Proof.
  induction files as [|f files IH]; intros H; [reflexivity|].
  cbn [forallb] in H. apply andb_prop in H as [Hf Hfiles].
  cbn [List.filter]. rewrite Hf, (IH Hfiles). reflexivity.
Qed.

Lemma omap_none_added (w : World) (files : list path) :
  forallb (fun f => negb (can_add w f)) files = true ->
  omap (member_of w) files = [].
Proof.
  induction files as [|f files IH]; intros H; [reflexivity|].
  cbn [forallb] in H. apply andb_prop in H as [Hf Hfiles].
  unfold can_add in Hf. rewrite omap_member_cons.
  destruct (member_of w f) as [m|] eqn:Em; [discriminate|].
  apply IH. exact Hfiles.
Qed.

Lemma member_of_content (w : World) (f : path) (m : string * file_content) :
  member_of w f = Some m ->
  file_name_in_archive (os w) f = Some (fst m)
  /\ stat w f = Some (File true (snd m)).
Proof.
  unfold member_of.
  destruct (file_name_in_archive (os w) f) as [name|]; [|discriminate].
  destruct (stat w f) as [[[|] c | es |]|]; try discriminate.
  intros H. inversion H; subst m. split; reflexivity.
Qed.


Lemma length_omap_members (w : World) (files : list path) :
  (length (omap (member_of w) files) + failures w files)%nat = length files.
Proof.
  unfold failures, can_add.
  induction files as [|f files IH]; [reflexivity|].
  rewrite omap_member_cons.
  cbn [List.filter]. destruct (member_of w f); cbn [negb length]; lia.
Qed.

(** Whatever the end of [close], an archive that was written to a
    destination outside the temporary directory is there afterwards: it
    holds the files that could be added. *)
Lemma close_archive (this : nat) (w : World) (r : MissionRecord)
  (files : list path) :
  heap w !! this = Some r ->
  is_recording (spec r) = true ->
  is_closed r = false ->
  addFiles [] (temp_dir (spec r)) w = (Ok files, w) ->
  files <> [] ->
  opens w (resolve (cwd w) (parse_path (os w) (destination (spec r)))) = true ->
  is_under (resolve (cwd w) (temp_dir (spec r)))
    (resolve (cwd w) (parse_path (os w) (destination (spec r)))) = false ->
  archive_at (snd (close this w)) (destination (spec r))
  = Some (omap (member_of w) files).
Proof.
  intros Hr Hrec Hcl Hfiles Hne Hopen Hunder.
  destruct (close_listed_view _ _ _ _ Hr Hrec Hcl Hfiles)
    as (_ & _ & _ & Hframe & _).
  destruct (close_frame _ _ _ Hr) as (Hos & Hcwd & _).
  unfold archive_at. rewrite Hos, Hcwd.
  rewrite (same_entry_file _ _ true (GzipTar (omap (member_of w) files))
             (Hframe _ Hunder)); [reflexivity|].
  apply written_world_archive; assumption.
Qed.

(** Whatever the end of [close] after [addFiles] has returned, the warnings
    of the files that could not be added are printed. *)
Lemma close_warnings (this : nat) (w : World) (r : MissionRecord)
  (files : list path) :
  heap w !! this = Some r ->
  is_recording (spec r) = true ->
  is_closed r = false ->
  addFiles [] (temp_dir (spec r)) w = (Ok files, w) ->
  cout (snd (close this w))
  = cout w ++ archive_warnings w files
    ++ (if (0 <? length files)%nat
           && negb (opens w (resolve (cwd w)
                               (parse_path (os w) (destination (spec r)))))
        then ["[warning] Unable to write recording to output file "
              +:+ destination (spec r)]
        else []).
Proof.
  intros Hr Hrec Hcl Hfiles.
  destruct (close_listed_view _ _ _ _ Hr Hrec Hcl Hfiles) as (_ & -> & _).
  apply written_world_cout.
Qed.

(** C3, as the code has it. For a temporary directory given as
    [./d1/.../dk], in which nothing is refused and every name is an ordinary
    one: when every file below it is added, the archive [close] leaves at
    the destination has one member for each of the N files, in the order of
    the enumeration, holding the bytes of the file. The member of the file
    reached through the names [n1 ... nm], whose path relative to the
    temporary directory is [n1/.../nm], is named [d1/.../dk/n1/.../nm]: the
    path of the file without its leading [./]. *)
Theorem archive_complete (this : nat) (w : World) (r : MissionRecord)
  (es : list (string * node)) (dirs : list string) :
  heap w !! this = Some r ->
  is_recording (spec r) = true ->
  is_closed r = false ->
  stat w (temp_dir (spec r)) = Some (Dir es) ->
  well_formed (Dir es) = true ->
  plain_tree (Dir es) = true ->
  elements (temp_dir (spec r)) = dot :: dirs ->
  forallb plain_name dirs = true ->
  unhindered w (resolve (cwd w) (temp_dir (spec r))) = true ->
  files_under (temp_dir (spec r)) (Dir es) <> [] ->
  forallb (can_add w) (files_under (temp_dir (spec r)) (Dir es)) = true ->
  opens w (resolve (cwd w) (parse_path (os w) (destination (spec r)))) = true ->
  is_under (resolve (cwd w) (temp_dir (spec r)))
    (resolve (cwd w) (parse_path (os w) (destination (spec r)))) = false ->
  exists members,
    archive_at (snd (close this w)) (destination (spec r)) = Some members
    /\ length members = length (files_under (temp_dir (spec r)) (Dir es))
    /\ Forall2
         (fun f m =>
            exists names,
              f = below (temp_dir (spec r)) names
              /\ relative_to (temp_dir (spec r)) f
                 = Some (join_elements "/" names)
              /\ fst m = join_elements "/" (dirs ++ names)
              /\ stat w f = Some (File true (snd m)))
         (files_under (temp_dir (spec r)) (Dir es)) members.
Proof.
  intros Hr Hrec Hcl Hdir Hwf Hplain Hel Hdirs Hfree Hne Hadd Hopen Hunder.
  rewrite <- (collect_files_under (node_height (Dir es))) in * by (auto; lia).
  set (files := collect (node_height (Dir es)) (temp_dir (spec r)) (Dir es)) in *.
  pose proof (addFiles_unhindered [] _ _ _ Hdir Hfree) as Hfiles.
  cbn [app] in Hfiles. fold files in Hfiles.
  exists (omap (member_of w) files).
  split; [apply close_archive; assumption|].
  assert (Forall2
            (fun f m =>
               exists names,
                 f = below (temp_dir (spec r)) names
                 /\ relative_to (temp_dir (spec r)) f
                    = Some (join_elements "/" names)
                 /\ fst m = join_elements "/" (dirs ++ names)
                 /\ stat w f = Some (File true (snd m)))
            files (omap (member_of w) files)) as Hall.
  { rewrite <- (filter_all_added w files Hadd) at 1.
    apply omap_members. intros f m Hin Hm.
    destruct (collect_sound _ _ _ _ Hin)
      as (names & rd & c & Hnames_ne & Hnames & -> & Hl).
    exists names. split; [reflexivity|].
    split; [apply relative_to_below|].
    destruct (member_of_content _ _ _ Hm) as (Hname & Hst).
    split; [|exact Hst].
    rewrite (file_name_below_dot (os w) _ dirs names Hel Hnames_ne Hdirs) in Hname.
    - inversion Hname. reflexivity.
    - apply (plain_tree_lookup _ _ _ Hplain Hl). }
  split; [|exact Hall].
  symmetry. apply (Forall2_length _ _ _ Hall).
Qed.

Lemma archive_complete_witness :
  exists members,
    archive_at (snd (close 1 ex_world)) "out.tar.gz" = Some members
    /\ length members = 2%nat
    /\ Forall2
         (fun f m =>
            exists names,
              f = below (temp_dir ex_spec) names
              /\ relative_to (temp_dir ex_spec) f = Some (join_elements "/" names)
              /\ fst m = join_elements "/" (["mission_records"; "u1"] ++ names)
              /\ stat ex_world f = Some (File true (snd m)))
         [Path "" ["."; "mission_records"; "u1"; "logs"; "commands.txt"];
          Path "" ["."; "mission_records"; "u1"; "video"; "frame001.png"]]
         members.
Proof.
  apply (archive_complete 1 ex_world ex_record ex_content
           ["mission_records"; "u1"]);
    try reflexivity; discriminate.
Defined.

(** C3, as the specification has it, fails: with the temporary directory
    [./mission_records/u1] the members are named
    [mission_records/u1/logs/commands.txt] and
    [mission_records/u1/video/frame001.png], not by the paths relative to the
    temporary directory, [logs/commands.txt] and [video/frame001.png]. *)
Lemma archive_names_counterexample :
  forallb (can_add ex_world) (files_under (temp_dir ex_spec) (Dir ex_content))
  = true
  /\ map (relative_to (temp_dir ex_spec))
       (files_under (temp_dir ex_spec) (Dir ex_content))
     = [Some "logs/commands.txt"; Some "video/frame001.png"]
  /\ archive_at (snd (close 1 ex_world)) (destination ex_spec)
     = Some [("mission_records/u1/logs/commands.txt", Bytes "move 1");
             ("mission_records/u1/video/frame001.png", Bytes "PNG")]
  /\ ~ (exists members,
          archive_at (snd (close 1 ex_world)) (destination ex_spec) = Some members
          /\ map (fun m => Some (fst m)) members
             = map (relative_to (temp_dir ex_spec))
                 (files_under (temp_dir ex_spec) (Dir ex_content))).
Proof.
  split; [reflexivity|]. split; [reflexivity|]. split; [reflexivity|].
  intros (members & Ha & Hn).
  assert (archive_at (snd (close 1 ex_world)) (destination ex_spec)
          = Some [("mission_records/u1/logs/commands.txt", Bytes "move 1");
                  ("mission_records/u1/video/frame001.png", Bytes "PNG")])
    as Hreal by reflexivity.
  rewrite Hreal in Ha. inversion Ha; subst members. discriminate Hn.
Qed.

Lemma archive_at_same (w w' : World) (dest : string) :
  os w' = os w ->
  cwd w' = cwd w ->
  same_entry
    (lookup_node (fs w) (resolve (cwd w) (parse_path (os w) dest)))
    (lookup_node (fs w') (resolve (cwd w) (parse_path (os w) dest))) ->
  archive_at w' dest = archive_at w dest.
Proof.
  intros Hos Hcwd Hsame. unfold archive_at. rewrite Hos, Hcwd.
  destruct (lookup_node (fs w) _) as [[rd c | es |]|]; simpl in Hsame.
  - rewrite Hsame. reflexivity.
  - destruct (lookup_node (fs w') _) as [[| es' |]|]; try discriminate.
    reflexivity.
  - rewrite Hsame. reflexivity.
  - rewrite Hsame. reflexivity.
Qed.

(** C4, as the code has it. [close] decides by the enumerated list. When it
    is empty the destination is not opened and nothing is printed: the one
    call is [remove_all] on the temporary directory, and outside that
    directory every file is as it was and no entry is created. When it is
    not empty the destination is opened, and a destination that can be
    opened, outside the temporary directory, holds the finished archive
    afterwards however many files failed: one member for each file that was
    added, none when every file failed. *)
Theorem archive_written_when_files_listed (this : nat) (w : World)
  (r : MissionRecord) (files : list path) :
  heap w !! this = Some r ->
  is_recording (spec r) = true ->
  is_closed r = false ->
  addFiles [] (temp_dir (spec r)) w = (Ok files, w) ->
  (files = [] ->
   fs_calls (snd (close this w))
   = fs_calls w ++ [RemoveAll (resolve (cwd w) (temp_dir (spec r)))]
   /\ cout (snd (close this w)) = cout w
   /\ (forall q rd c,
         is_under (resolve (cwd w) (temp_dir (spec r))) q = false ->
         lookup_node (fs w) q = Some (File rd c) ->
         lookup_node (fs (snd (close this w))) q = Some (File rd c))
   /\ (forall q,
         is_under (resolve (cwd w) (temp_dir (spec r))) q = false ->
         lookup_node (fs w) q = None ->
         lookup_node (fs (snd (close this w))) q = None)
   /\ (is_under (resolve (cwd w) (temp_dir (spec r)))
         (resolve (cwd w) (parse_path (os w) (destination (spec r)))) = false ->
       archive_at (snd (close this w)) (destination (spec r))
       = archive_at w (destination (spec r))))
  /\ (files <> [] ->
      fs_calls (snd (close this w))
      = fs_calls w
        ++ [OpenForWriting
              (resolve (cwd w) (parse_path (os w) (destination (spec r))));
            RemoveAll (resolve (cwd w) (temp_dir (spec r)))]
      /\ (opens w (resolve (cwd w) (parse_path (os w) (destination (spec r))))
          = true ->
          is_under (resolve (cwd w) (temp_dir (spec r)))
            (resolve (cwd w) (parse_path (os w) (destination (spec r)))) = false ->
          exists members,
            archive_at (snd (close this w)) (destination (spec r)) = Some members
            /\ (length members + failures w files)%nat = length files
            /\ (forallb (fun f => negb (can_add w f)) files = true ->
                members = []))).
Proof.
  intros Hr Hrec Hcl Hfiles.
  destruct (close_listed_view _ _ _ _ Hr Hrec Hcl Hfiles)
    as (_ & Hcout & Hcalls & _).
  destruct (close_frame _ _ _ Hr) as (Hos & Hcwd & _).
  split.
  - intros ->.
    assert (forall q,
              is_under (resolve (cwd w) (temp_dir (spec r))) q = false ->
              same_entry (lookup_node (fs w) q)
                (lookup_node (fs (snd (close this w))) q)) as Hsame.
    { intros q Hq.
      apply (close_unwritten_entries _ _ _ [] _ Hr Hrec Hcl Hfiles); auto. }
    split; [rewrite Hcalls; reflexivity|].
    split; [rewrite Hcout; reflexivity|].
    split; [intros q rd c Hq; apply same_entry_file; apply Hsame; exact Hq|].
    split; [intros q Hq; apply same_entry_none; apply Hsame; exact Hq|].
    intros Hunder. apply archive_at_same; auto.
  - intros Hne.
    assert ((0 <? length files)%nat = true) as Hlen.
    { destruct files; [congruence | reflexivity]. }
    split.
    + rewrite Hcalls, written_world_calls, Hlen, <- app_assoc. reflexivity.
    + intros Hopen Hunder. exists (omap (member_of w) files).
      split; [apply close_archive; assumption|].
      split; [apply length_omap_members | apply omap_none_added].
Qed.

Lemma archive_written_when_files_listed_witness :
  fs_calls (snd (close 1 ex_world_unreadable))
  = [OpenForWriting ["out.tar.gz"]; RemoveAll ["mission_records"; "u1"]]
  /\ exists members,
       archive_at (snd (close 1 ex_world_unreadable)) "out.tar.gz" = Some members
       /\ (length members + 1)%nat = 1%nat
       /\ members = [].
Proof.
  destruct (archive_written_when_files_listed 1 ex_world_unreadable ex_record
              [ex_file "video.mp4"] eq_refl eq_refl eq_refl eq_refl)
    as [_ Hwritten].
  destruct Hwritten as (Hcalls & Harchive); [discriminate|].
  split; [exact Hcalls|].
  destruct (Harchive eq_refl eq_refl) as (members & Ha & Hlen & Hnone).
  exists members. split; [exact Ha|]. split; [exact Hlen|].
  apply Hnone. reflexivity.
Defined.

(** C4, as the specification has it, fails: the only file of the temporary
    directory cannot be read, so the archive has no usable entry, and still
    [close] creates the destination file and writes the empty archive. *)
Lemma empty_archive_counterexample :
  fst (addFiles [] (temp_dir ex_spec) ex_world_unreadable)
  = Ok [ex_file "video.mp4"]
  /\ can_add ex_world_unreadable (ex_file "video.mp4") = false
  /\ lookup_node (fs ex_world_unreadable) ["out.tar.gz"] = None
  /\ fst (close 1 ex_world_unreadable) = Ok tt
  /\ lookup_node (fs (snd (close 1 ex_world_unreadable))) ["out.tar.gz"]
     = Some (File true (GzipTar [])).
Proof. repeat split. Qed.



(** ** Moves: lemmas *)

Lemma load_run (x : nat) (w : World) (r : MissionRecord) :
  heap w !! x = Some r -> load x w = (Ok r, w).
Proof. intros H. unfold load. rewrite H. reflexivity. Qed.

Lemma record_eta (r : MissionRecord) :
  {| is_closed := is_closed r; spec := spec r |} = r.
Proof. destruct r; reflexivity. Qed.

Lemma move_ctor_run (a b : nat) (w : World) (ra : MissionRecord) :
  a <> b ->
  heap w !! a = Some ra ->
  MissionRecord_move_ctor b a w
  = (Ok tt,
     set_heap (<[a := set_spec default_spec ra]> (<[b := ra]> (heap w))) w).
Proof.
  intros Hab Ha. unfold MissionRecord_move_ctor.
  rewrite (bind_ok _ _ _ _ _ (load_run _ _ _ Ha)).
  rewrite record_eta. unfold bind at 1, store at 1.
  erewrite bind_ok
    by (apply load_run; cbn [heap set_heap];
        rewrite lookup_insert_ne by congruence; exact Ha).
  reflexivity.
Qed.

Lemma operator_assign_run (a b : nat) (w : World) (ra rb : MissionRecord) :
  a <> b ->
  heap w !! a = Some ra ->
  heap w !! b = Some rb ->
  operator_assign b a w
  = (Ok tt,
     set_heap
       (<[a := set_spec default_spec ra]>
          (<[b := ra]> (<[b := set_is_closed (is_closed ra) rb]> (heap w)))) w).
Proof.
  intros Hab Ha Hb. unfold operator_assign.
  destruct (Nat.eqb_spec b a) as [->|_]; [congruence|]. cbn [negb].
  rewrite (bind_ok _ _ _ _ _ (load_run _ _ _ Ha)).
  rewrite (bind_ok _ _ _ _ _ (load_run _ _ _ Hb)).
  unfold bind at 1, store at 1.
  erewrite bind_ok
    by (apply load_run; cbn [heap set_heap];
        rewrite lookup_insert_ne by congruence; exact Ha).
  erewrite bind_ok
    by (apply load_run; cbn [heap set_heap]; apply lookup_insert_eq).
  unfold bind at 1, store at 1.
  erewrite bind_ok
    by (apply load_run; cbn [heap set_heap];
        rewrite !lookup_insert_ne by congruence; exact Ha).
  unfold store. cbn [heap set_heap].
  replace (set_spec (spec ra) (set_is_closed (is_closed ra) rb)) with ra
    by (destruct ra; reflexivity).
  reflexivity.
Qed.


(** A [close] that ran to its end has called [remove_all] on the temporary
    directory once. *)
Lemma closed_world_removals (this : nat) (r : MissionRecord) (dest : string)
  (files : list path) (w : World) :
  removals (resolve (cwd w) (temp_dir (spec r)))
    (closed_world this r (written_world dest files w))
  = S (removals (resolve (cwd w) (temp_dir (spec r))) w).
Proof.
  destruct (closed_world_view this r dest files w)
    as (_ & _ & _ & _ & Hcalls & _).
  unfold removals. rewrite Hcalls, written_world_calls.
  rewrite !List.filter_app, !List.length_app. cbn [List.filter is_remove_all].
  destruct (decide (resolve (cwd w) (temp_dir (spec r))
                    = resolve (cwd w) (temp_dir (spec r)))); [|congruence].
  destruct (0 <? length files)%nat; cbn [List.filter is_remove_all length]; lia.
Qed.

(** C7. Moving the session at [a] to [b], by the move constructor or by the
    move assignment, gives [b] the spec and the closed flag of [a] and leaves
    [a] with the default spec, which does not record: the destructor of [a]
    changes nothing afterwards, before or after that of [b]. The destructor
    of [b] calls [remove_all] on the temporary directory, once, and the
    directory is gone after it where nothing is refused in the directory,
    which is not the root and is not named by a path that ends in a dot.
    Assigning an object to itself changes nothing. *)
Theorem move_transfers_ownership (a b : nat) (w : World) (ra : MissionRecord) :
  a <> b ->
  heap w !! a = Some ra ->
  (exists w1, MissionRecord_move_ctor b a w = (Ok tt, w1) /\ after_move a b ra w w1)
  /\ (is_Some (heap w !! b) ->
      exists w1, operator_assign b a w = (Ok tt, w1) /\ after_move a b ra w w1)
  /\ operator_assign a a w = (Ok tt, w)
  /\ (forall w1,
        after_move a b ra w w1 ->
        is_recording (spec (set_spec default_spec ra)) = false
        /\ MissionRecord_dtor a w1 = (Ok tt, w1)
        /\ (forall o w2,
              MissionRecord_dtor b w1 = (o, w2) ->
              MissionRecord_dtor a w2 = (Ok tt, w2))
        /\ (is_recording (spec ra) = true ->
            is_closed ra = false ->
            node_is_directory (stat w (temp_dir (spec ra))) = true ->
            unhindered w (resolve (cwd w) (temp_dir (spec ra))) = true ->
            ends_in_dot (temp_dir (spec ra)) = false ->
            resolve (cwd w) (temp_dir (spec ra)) <> [] ->
            exists w2,
              MissionRecord_dtor b w1 = (Ok tt, w2)
              /\ removals (resolve (cwd w) (temp_dir (spec ra))) w2
                 = S (removals (resolve (cwd w) (temp_dir (spec ra))) w)
              /\ node_exists (stat w2 (temp_dir (spec ra))) = false
              /\ MissionRecord_dtor a w2 = (Ok tt, w2))).
Proof.
  intros Hab Ha.
  assert (forall h,
            after_move a b ra w
              (set_heap (<[a := set_spec default_spec ra]> (<[b := ra]> h)) w))
    as Hafter.
  { intros h. unfold after_move.
    cbn [heap set_heap os cwd fs denied fs_calls cout].
    rewrite lookup_insert_ne by congruence.
    rewrite !lookup_insert_eq. repeat split. }
  split; [|split; [|split]].
  - rewrite (move_ctor_run _ _ _ _ Hab Ha). eauto.
  - intros [rb Hb]. rewrite (operator_assign_run _ _ _ _ _ Hab Ha Hb). eauto.
  - unfold operator_assign. rewrite Nat.eqb_refl. reflexivity.
  - intros w1 (Hb1 & Ha1 & Hos & Hcwd & Hfs & Hden & Hcalls & Hcout).
    assert (forall o w2,
              MissionRecord_dtor b w1 = (o, w2) ->
              MissionRecord_dtor a w2 = (Ok tt, w2)) as Hlater.
    { intros o w2 Hd.
      apply (dtor_inert _ _ (set_spec default_spec ra)); [|reflexivity].
      pose proof (dtor_heap_other b a w1 ra Hb1 Hab) as Hh.
      rewrite Hd in Hh. cbn [snd] in Hh. rewrite Hh. exact Ha1. }
    split; [reflexivity|]. split; [|split].
    + apply (dtor_inert _ _ _ Ha1). reflexivity.
    + exact Hlater.
    + intros Hrec Hcl Hdir Hfree Hdot Hloc.
      assert (stat w1 (temp_dir (spec ra)) = stat w (temp_dir (spec ra))) as Hst.
      { unfold stat. rewrite Hfs, Hcwd. reflexivity. }
      destruct (stat w (temp_dir (spec ra))) as [[| es |]|] eqn:Es;
        try discriminate.
      assert (unhindered w1 (resolve (cwd w1) (temp_dir (spec ra))) = true)
        as Hfree1.
      { unfold unhindered. rewrite Hden, Hcwd. exact Hfree. }
      rewrite <- Hcwd in Hloc.
      pose proof (close_returns _ _ _ Hb1 Hrec Hcl es Hst Hfree1 Hdot Hloc) as Hc.
      eexists. split; [|split; [|split]].
      * rewrite (dtor_open _ _ _ Hb1 Hcl), Hc. reflexivity.
      * rewrite <- Hcwd, closed_world_removals. f_equal.
        unfold removals. rewrite Hcalls. reflexivity.
      * apply closed_world_missing.
        destruct (written_world_frame (destination (spec ra))
                    (collect (node_height (Dir es)) (temp_dir (spec ra)) (Dir es))
                    w1) as (_ & -> & _).
        exact Hloc.
      * apply (Hlater (Ok tt)).
        rewrite (dtor_open _ _ _ Hb1 Hcl), Hc. reflexivity.
Qed.

Lemma move_transfers_ownership_witness :
  (exists w1 w2,
     operator_assign 2 1 ex_world_two = (Ok tt, w1)
     /\ after_move 1 2 ex_record ex_world_two w1
     /\ MissionRecord_dtor 2 w1 = (Ok tt, w2)
     /\ removals ["mission_records"; "u1"] w2 = 1%nat
     /\ MissionRecord_dtor 1 w2 = (Ok tt, w2))
  /\ operator_assign 1 1 ex_world_two = (Ok tt, ex_world_two).
Proof.
  destruct (move_transfers_ownership 1 2 ex_world_two ex_record)
    as (_ & Hassign & Hself & Hlater).
  - discriminate.
  - reflexivity.
  - split; [|exact Hself].
    destruct Hassign as (w1 & Hmove & Hafter); [eexists; reflexivity|].
    destruct (Hlater w1 Hafter) as (_ & _ & _ & Honce).
    destruct Honce as (w2 & Hd & Hrem & _ & Hlast);
      [reflexivity | reflexivity | reflexivity | reflexivity | reflexivity
      | discriminate |].
    exists w1, w2.
    split; [exact Hmove|]. split; [exact Hafter|]. split; [exact Hd|].
    split; [exact Hrem | exact Hlast].
Defined.

(** * Further properties *)

(** ** The constructor and the life of a session *)

Lemma make_directories_lookup (loc : list string) :
  forall f f',
    make_directories loc f = Some f' ->
    lookup_node f loc = None \/ node_is_directory (lookup_node f loc) = true.
Proof.
  induction loc as [|c loc IH]; intros f f' H.
  - right. destruct f; try discriminate. reflexivity.
  - destruct f as [| es |]; try discriminate. cbn [make_directories] in H.
    cbn [lookup_node].
    destruct (find_entry c es) as [n|]; [|left; reflexivity].
    destruct (make_directories loc n) as [n'|] eqn:En; [|discriminate].
    apply (IH _ _ En).
Qed.

(** A directory that [create_directories] had to create is empty. *)
Lemma make_directories_fresh (loc : list string) :
  forall f f',
    lookup_node f loc = None ->
    make_directories loc f = Some f' ->
    lookup_node f' loc = Some (Dir []).
Proof.
  induction loc as [|c loc IH]; intros f f' Hnone H; [discriminate|].
  destruct f as [| es |]; try discriminate.
  cbn [make_directories] in H. cbn [lookup_node] in Hnone.
  destruct (find_entry c es) as [n|].
  - destruct (make_directories loc n) as [n'|] eqn:En; [|discriminate].
    inversion H; subst f'. cbn [lookup_node]. rewrite find_entry_put.
    apply (IH _ _ Hnone En).
  - destruct (make_directories loc (Dir [])) as [n'|] eqn:En; [|discriminate].
    inversion H; subst f'. cbn [lookup_node]. rewrite find_entry_put.
    destruct loc as [|c' loc].
    + inversion En. reflexivity.
    + apply (IH (Dir []) _ eq_refl En).
Qed.

Lemma lookup_node_parent (f : node) (loc : list string) :
  node_is_directory (lookup_node f loc) = true ->
  node_is_directory (lookup_node f (removelast loc)) = true.
Proof.
  destruct loc as [|c loc] using rev_ind; [auto|].
  rewrite removelast_last, lookup_node_snoc.
  destruct (lookup_node f loc) as [[| es |]|]; try discriminate. reflexivity.
Qed.

(** [remove_all] leaves the directory that held the entry in place. *)
Lemma lookup_remove_node_parent (loc : list string) :
  forall f,
    loc <> [] ->
    node_is_directory (lookup_node f (removelast loc)) = true ->
    node_is_directory (lookup_node (remove_node loc f) (removelast loc)) = true.
Proof.
  induction loc as [|c loc IH]; intros f Hne Hp; [congruence|].
  destruct loc as [|c' loc].
  - cbn [removelast lookup_node] in *.
    destruct f as [| es |]; try discriminate. reflexivity.
  - change (removelast (c :: c' :: loc)) with (c :: removelast (c' :: loc)) in *.
    destruct f as [| es |]; try discriminate.
    change (remove_node (c :: c' :: loc) (Dir es))
      with (Dir (update_entry (remove_node (c' :: loc)) c es)).
    cbn [lookup_node] in *. rewrite find_entry_update.
    destruct (find_entry c es) as [n|]; [|discriminate]. simpl option_map.
    apply IH; [discriminate | exact Hp].
Qed.

(** The constructor on a spec that records. *)
Lemma ctor_run (this : nat) (sp : MissionRecordSpec) (w : World) :
  is_recording sp = true ->
  let built := set_heap (<[this := {| is_closed := false; spec := sp |}]> (heap w)) w in
  let loc := resolve (cwd w) (temp_dir sp) in
  MissionRecord_ctor this sp w =
  match make_directories loc (fs w) with
  | Some f => (Ok tt, set_fs f (add_call (CreateDirectories loc) built))
  | None =>
      (Throw (StdException
         ("boost::filesystem::create_directories: "
          +:+ path_string (os w) (temp_dir sp))),
       add_call (CreateDirectories loc) built)
  end.
Proof.
  intros Hrec. unfold MissionRecord_ctor, bind, store, create_directories.
  rewrite Hrec. cbn [cwd fs os set_heap].
  destruct (make_directories _ _); reflexivity.
Qed.

(** X1. A session that records and whose constructor has returned is not
    closed and has its temporary directory, so that a [close] that follows
    never raises the error of the missing directory. When that [close]
    returns, the directory is gone and the session is closed; and it
    returns whenever nothing is refused in the directory, which is not the
    root and is not named by a path that ends in a dot. *)
Theorem constructed_session_closes (this : nat) (sp : MissionRecordSpec)
  (w w' : World) :
  is_recording sp = true ->
  MissionRecord_ctor this sp w = (Ok tt, w') ->
  heap w' !! this = Some {| is_closed := false; spec := sp |}
  /\ node_is_directory (stat w' (temp_dir sp)) = true
  /\ fst (close this w')
     <> Throw (StdException
                 ("Attempt to write to non-existent directory: "
                  +:+ path_string (os w') (temp_dir sp)))
  /\ (fst (close this w') = Ok tt ->
      node_exists (stat (snd (close this w')) (temp_dir sp)) = false
      /\ exists r',
           heap (snd (close this w')) !! this = Some r'
           /\ is_closed r' = true
           /\ spec r' = sp)
  /\ (unhindered w (resolve (cwd w) (temp_dir sp)) = true ->
      ends_in_dot (temp_dir sp) = false ->
      resolve (cwd w) (temp_dir sp) <> [] ->
      fst (close this w') = Ok tt).
Proof.
  intros Hsp Hctor.
  destruct (ctor_creates_temp_dir _ _ _ _ Hsp Hctor) as [Hobj Hdir].
  split; [exact Hobj|]. split; [exact Hdir|].
  assert (cwd w' = cwd w /\ denied w' = denied w) as [Hcwd Hden].
  { rewrite (ctor_run _ _ _ Hsp) in Hctor.
    destruct (make_directories _ _); inversion Hctor; split; reflexivity. }
  split; [|split].
  - close_cases Hobj; cbn [fst]; unfold remove_error; try discriminate.
    intros Hm. inversion Hm as [Hmsg].
    destruct (addFiles_threw _ _ _ _ _ Hlist) as (_ & _ & Hmissing & _).
    cbn [spec] in Hmissing.
    assert (node_exists (stat w' (temp_dir sp)) = false) as Hgone.
    { apply Hmissing. rewrite Hmsg. reflexivity. }
    destruct (stat w' (temp_dir sp)) as [[| |]|]; discriminate.
  - close_cases Hobj; cbn [fst snd]; try discriminate.
    + destruct Hidle as [Hidle | Hidle]; cbn [spec is_closed] in Hidle; congruence.
    + intros _. cbn [spec] in *.
      destruct (closed_world_view this {| is_closed := false; spec := sp |}
                  (destination sp) listed w')
        as (_ & _ & _ & _ & _ & _ & Hheap).
      cbn [spec] in Hheap. split.
      * apply (closed_world_missing this {| is_closed := false; spec := sp |}).
        destruct (written_world_frame (destination sp) listed w')
          as (_ & -> & _).
        exact Hloc.
      * eexists. rewrite Hheap. split; [apply lookup_insert_eq|].
        split; reflexivity.
  - intros Hfree Hdot Hloc.
    destruct (stat w' (temp_dir sp)) as [[| es |]|] eqn:Hst; try discriminate.
    rewrite (close_returns this w' _ Hobj Hsp eq_refl es Hst); try assumption.
    + reflexivity.
    + unfold unhindered. rewrite Hden, Hcwd. exact Hfree.
    + cbn [spec]. rewrite Hcwd. exact Hloc.
Qed.

Lemma constructed_session_closes_witness :
  exists w',
    MissionRecord_ctor 1 ex_spec ex_world_fresh = (Ok tt, w')
    /\ node_is_directory (stat w' (temp_dir ex_spec)) = true
    /\ fst (close 1 w') = Ok tt
    /\ node_exists (stat (snd (close 1 w')) (temp_dir ex_spec)) = false
    /\ exists r',
         heap (snd (close 1 w')) !! 1%nat = Some r' /\ is_closed r' = true.
Proof.
  eexists.
  destruct (constructed_session_closes 1 ex_spec ex_world_fresh _
              eq_refl eq_refl)
    as (_ & Hdir & _ & Hdone & Hreturns).
  assert (fst (close 1 (snd (MissionRecord_ctor 1 ex_spec ex_world_fresh)))
          = Ok tt) as Hok.
  { apply Hreturns; [reflexivity | reflexivity | discriminate]. }
  destruct (Hdone Hok) as (Hgone & r' & Hobj & Hclosed & _).
  split; [reflexivity|]. split; [exact Hdir|]. split; [exact Hok|].
  split; [exact Hgone|]. exists r'. split; [exact Hobj | exact Hclosed].
Defined.

(** X2. A session built where no temporary directory was, in a place where
    nothing is refused, and closed before any file was written to it, never
    opens the destination and prints nothing: the calls are the creation
    and the removal of the temporary directory. When [close] returns, as it
    does unless the path of the directory ends in a dot, the directory is
    gone and the directory above it, which the constructor may have created,
    is still there. *)
Theorem fresh_session_leaves_no_archive (this : nat) (sp : MissionRecordSpec)
  (w w' : World) :
  is_recording sp = true ->
  node_exists (stat w (temp_dir sp)) = false ->
  unhindered w (resolve (cwd w) (temp_dir sp)) = true ->
  MissionRecord_ctor this sp w = (Ok tt, w') ->
  fs_calls (snd (close this w'))
  = fs_calls w ++ [CreateDirectories (resolve (cwd w) (temp_dir sp));
                   RemoveAll (resolve (cwd w) (temp_dir sp))]
  /\ cout (snd (close this w')) = cout w
  /\ (fst (close this w') = Ok tt ->
      node_exists (stat (snd (close this w')) (temp_dir sp)) = false
      /\ node_is_directory
           (lookup_node (fs (snd (close this w')))
              (removelast (resolve (cwd w) (temp_dir sp)))) = true)
  /\ (ends_in_dot (temp_dir sp) = false -> fst (close this w') = Ok tt).
Proof.
  intros Hrec Hmiss Hfree Hctor.
  rewrite (ctor_run _ _ _ Hrec) in Hctor. cbv zeta in Hctor.
  destruct (make_directories (resolve (cwd w) (temp_dir sp)) (fs w))
    as [f|] eqn:Ef; [|discriminate].
  inversion Hctor; subst w'; clear Hctor.
  assert (lookup_node (fs w) (resolve (cwd w) (temp_dir sp)) = None) as Hnone.
  { unfold stat in Hmiss.
    destruct (make_directories_lookup _ _ _ Ef) as [H|H]; [exact H|].
    destruct (lookup_node (fs w) (resolve (cwd w) (temp_dir sp)))
      as [[| |]|]; discriminate. }
  assert (resolve (cwd w) (temp_dir sp) <> []) as Hloc.
  { intros E. rewrite E in Hnone. discriminate. }
  pose proof (make_directories_fresh _ _ _ Hnone Ef) as Hfresh.
  set (w' := set_fs f _).
  assert (heap w' !! this = Some {| is_closed := false; spec := sp |}) as Hobj.
  { subst w'. cbn [heap set_fs add_call set_heap]. apply lookup_insert_eq. }
  assert (stat w' (temp_dir sp) = Some (Dir [])) as Hst by exact Hfresh.
  assert (unhindered w' (resolve (cwd w') (temp_dir sp)) = true) as Hfree'
    by exact Hfree.
  pose proof (addFiles_unhindered [] _ _ _ Hst Hfree') as Hlist.
  change ([] ++ collect (node_height (Dir [])) (temp_dir sp) (Dir []))
    with ([] : list path) in Hlist.
  destruct (close_listed_view this w' _ [] Hobj Hrec eq_refl Hlist)
    as (_ & Hcout & Hcalls & _ & Hdone).
  cbn [spec] in *.
  split; [|split; [|split]].
  - rewrite Hcalls. subst w'.
    cbn [written_world length Nat.ltb Nat.leb fs_calls cwd set_fs add_call
         set_heap].
    rewrite <- app_assoc. reflexivity.
  - rewrite Hcout. reflexivity.
  - intros Hok. destruct (Hdone Hok) as (-> & _).
    change (written_world (destination sp) [] w') with w'.
    split.
    + apply (closed_world_missing this {| is_closed := false; spec := sp |}).
      exact Hloc.
    + unfold closed_world. cbn [fs set_heap set_fs add_call spec].
      change (cwd w') with (cwd w).
      apply lookup_remove_node_parent; [exact Hloc|].
      apply lookup_node_parent. subst w'. cbn [fs set_fs]. rewrite Hfresh.
      reflexivity.
  - intros Hdot.
    rewrite (close_done this w' _ Hobj Hrec eq_refl [] Hlist Hfree' Hdot Hloc).
    reflexivity.
Qed.

Lemma fresh_session_leaves_no_archive_witness :
  exists w',
    MissionRecord_ctor 1 ex_spec ex_world_fresh = (Ok tt, w')
    /\ fst (close 1 w') = Ok tt
    /\ fs_calls (snd (close 1 w'))
       = [CreateDirectories ["mission_records"; "u1"];
          RemoveAll ["mission_records"; "u1"]]
    /\ cout (snd (close 1 w')) = []
    /\ node_is_directory (lookup_node (fs (snd (close 1 w'))) ["mission_records"])
       = true.
Proof.
  eexists.
  destruct (fresh_session_leaves_no_archive 1 ex_spec ex_world_fresh _
              eq_refl eq_refl eq_refl eq_refl)
    as (Hcalls & Hout & Hdone & Hreturns).
  pose proof (Hreturns eq_refl) as Hok.
  destruct (Hdone Hok) as (_ & Hparent).
  split; [reflexivity|]. split; [exact Hok|]. split; [exact Hcalls|].
  split; [exact Hout | exact Hparent].
Defined.

(** X3. A session whose spec does not record never touches the file system
    and never prints: its constructor only builds the object, and [close]
    and the destructor leave the world as the constructor left it. *)
Theorem idle_session_is_inert (this : nat) (sp : MissionRecordSpec) (w : World) :
  is_recording sp = false ->
  exists w1,
    MissionRecord_ctor this sp w = (Ok tt, w1)
    /\ heap w1 !! this = Some {| is_closed := false; spec := sp |}
    /\ fs w1 = fs w /\ fs_calls w1 = fs_calls w /\ cout w1 = cout w
    /\ close this w1 = (Ok tt, w1)
    /\ MissionRecord_dtor this w1 = (Ok tt, w1).
Proof.
  intros Hrec.
  exists (set_heap (<[this := {| is_closed := false; spec := sp |}]> (heap w)) w).
  assert (heap (set_heap (<[this := {| is_closed := false; spec := sp |}]> (heap w)) w)
            !! this = Some {| is_closed := false; spec := sp |}) as Hobj.
  { cbn [heap set_heap]. apply lookup_insert_eq. }
  split.
  { unfold MissionRecord_ctor, bind, store. rewrite Hrec. reflexivity. }
  split; [exact Hobj|]. repeat (split; [reflexivity|]). split.
  - apply (close_noop _ _ _ Hobj). left. exact Hrec.
  - apply (dtor_inert _ _ _ Hobj). exact Hrec.
Qed.

Lemma idle_session_is_inert_witness :
  exists w1,
    MissionRecord_ctor 1 ex_spec_idle ex_world_fresh = (Ok tt, w1)
    /\ fs w1 = fs ex_world_fresh
    /\ fs_calls w1 = []
    /\ MissionRecord_dtor 1 w1 = (Ok tt, w1).
Proof.
  destruct (idle_session_is_inert 1 ex_spec_idle ex_world_fresh eq_refl)
    as (w1 & Hctor & _ & Hfs & Hcalls & _ & _ & Hdtor).
  exists w1. split; [exact Hctor|]. split; [exact Hfs|].
  split; [exact Hcalls | exact Hdtor].
Defined.

(** ** What [close] keeps *)

(** X4. [close] never changes the spec of the session, so every accessor
    returns after [close] what it returned before; [is_closed] only ever
    goes from false to true; a [close] that returns on a recording session
    leaves it closed, and a [close] that throws leaves the object as it was. *)
Theorem close_keeps_spec (this : nat) (w : World) (r : MissionRecord) :
  heap w !! this = Some r ->
  exists r',
    heap (snd (close this w)) !! this = Some r'
    /\ spec r' = spec r
    /\ accessors r' = accessors r
    /\ (is_closed r = true -> is_closed r' = true)
    /\ (fst (close this w) = Ok tt ->
        is_recording (spec r) = true -> is_closed r' = true)
    /\ (fst (close this w) <> Ok tt -> r' = r).
Proof.
  intros Hr.
  assert (forall dest files, heap (written_world dest files w) = heap w) as Hh.
  { intros dest files. apply written_world_frame. }
  close_cases Hr; cbn [fst snd].
  - exists r. split; [exact Hr|]. do 2 (split; [reflexivity|]).
    split; [auto|]. split; [|auto].
    intros _ Hrec. destruct Hidle; congruence.
  - exists r. split; [exact Hr|]. do 2 (split; [reflexivity|]).
    split; [auto|]. split; [discriminate | auto].
  - exists r. cbn [heap set_fs add_call]. rewrite Hh.
    split; [exact Hr|]. do 2 (split; [reflexivity|]).
    split; [auto|]. split; [discriminate | auto].
  - exists (set_is_closed true r). unfold closed_world. cbn [heap set_heap].
    rewrite lookup_insert_eq.
    split; [reflexivity|]. do 2 (split; [reflexivity|]).
    split; [reflexivity|]. split; [reflexivity|].
    intros H. congruence.
Qed.

Lemma close_keeps_spec_witness :
  exists r',
    heap (snd (close 1 ex_world)) !! 1%nat = Some r'
    /\ getMP4Path r' = "./mission_records/u1/video.mp4"
    /\ is_closed r' = true.
Proof.
  destruct (close_keeps_spec 1 ex_world ex_record eq_refl)
    as (r' & Hobj & Hspec & _ & _ & Hclosed & _).
  exists r'. split; [exact Hobj|]. split.
  - unfold getMP4Path. rewrite Hspec. reflexivity.
  - apply Hclosed; reflexivity.
Defined.

(** X5. [close] makes at most two calls that change the file system: it may
    open the destination, once, and it then calls [remove_all] on the
    temporary directory, once; it never creates a directory and never
    changes the current directory. *)
Theorem close_calls_shape (this : nat) (w : World) (r : MissionRecord) :
  heap w !! this = Some r ->
  let tloc := resolve (cwd w) (temp_dir (spec r)) in
  let dloc := resolve (cwd w) (parse_path (os w) (destination (spec r))) in
  cwd (snd (close this w)) = cwd w
  /\ (fs_calls (snd (close this w)) = fs_calls w
      \/ fs_calls (snd (close this w)) = fs_calls w ++ [RemoveAll tloc]
      \/ fs_calls (snd (close this w))
         = fs_calls w ++ [OpenForWriting dloc; RemoveAll tloc]).
Proof.
  intros Hr tloc dloc.
  split; [apply (close_frame _ _ _ Hr)|].
  assert (forall files l,
            fs_calls (written_world (destination (spec r)) files w) ++ [l]
            = fs_calls w ++ [l]
            \/ fs_calls (written_world (destination (spec r)) files w) ++ [l]
               = fs_calls w ++ [OpenForWriting dloc; l]) as Hcalls.
  { intros files l. rewrite written_world_calls. fold dloc.
    destruct (0 <? length files)%nat.
    - right. rewrite <- app_assoc. reflexivity.
    - left. rewrite app_nil_r. reflexivity. }
  close_cases Hr; cbn [snd]; try (left; reflexivity).
  - cbn [fs_calls set_fs add_call]. right. apply Hcalls.
  - destruct (closed_world_view this r (destination (spec r)) listed w)
      as (_ & _ & _ & _ & -> & _).
    right. apply Hcalls.
Qed.

Lemma close_calls_shape_witness :
  fs_calls (snd (close 1 ex_world))
  = [OpenForWriting ["out.tar.gz"]; RemoveAll ["mission_records"; "u1"]].
Proof.
  destruct (close_calls_shape 1 ex_world ex_record eq_refl)
    as (_ & [H | [H | H]]); [discriminate H | discriminate H | exact H].
Defined.

(** X6. [close] changes no file but the destination and what is in the
    temporary directory: a file that is not the destination and does not lie
    in the temporary directory is after [close], however it ends, what it
    was before. *)
Theorem close_leaves_other_files (this : nat) (w : World) (r : MissionRecord)
  (q : list string) (readable : bool) (content : file_content) :
  heap w !! this = Some r ->
  lookup_node (fs w) q = Some (File readable content) ->
  is_under (resolve (cwd w) (temp_dir (spec r))) q = false ->
  q <> resolve (cwd w) (parse_path (os w) (destination (spec r))) ->
  lookup_node (fs (snd (close this w))) q = Some (File readable content).
Proof.
  intros Hr Hq Hunder Hne.
  apply (same_entry_file (lookup_node (fs w) q)); [|exact Hq].
  apply (close_other_entries _ _ _ _ Hr Hunder Hne).
Qed.

Lemma close_leaves_other_files_witness :
  lookup_node (fs (snd (close 1 ex_world_pair))) ["notes.txt"]
  = Some (File true (Bytes "keep"))
  /\ lookup_node (fs (snd (close 1 ex_world_pair)))
       ["mission_records"; "u2"; "rewards.txt"]
     = Some (File true (Bytes "0.5")).
Proof.
  split.
  - apply (close_leaves_other_files 1 ex_world_pair ex_record);
      [reflexivity | reflexivity | reflexivity | discriminate].
  - apply (close_leaves_other_files 1 ex_world_pair ex_record);
      [reflexivity | reflexivity | reflexivity | discriminate].
Defined.

(** ** What [addFiles] lists *)

(** X7. On a directory in which nothing is refused [addFiles] returns; and
    whenever it returns it has left the world as it is and lists exactly
    the regular files that lie below the directory, at any depth: the paths
    reached from the directory through names of entries that end at a
    regular file. *)
Theorem addFiles_lists_the_files_below (w : World) (directory : path)
  (es : list (string * node)) :
  stat w directory = Some (Dir es) ->
  (unhindered w (resolve (cwd w) directory) = true ->
   exists files, addFiles [] directory w = (Ok files, w))
  /\ (forall files w',
        addFiles [] directory w = (Ok files, w') ->
        w' = w
        /\ forall f,
             In f files <->
             exists names rd c,
               names <> []
               /\ Forall (fun name => is_dot_name name = false) names
               /\ f = below directory names
               /\ stat w f = Some (File rd c)).
Proof.
  intros Hd. split.
  - intros Hfree. eexists. apply (addFiles_unhindered [] _ _ _ Hd Hfree).
  - intros files w' Hrun.
    destruct (addFiles_returned _ _ _ _ _ Hrun) as (-> & es' & Hd' & ->).
    rewrite Hd in Hd'. inversion Hd'; subst es'. cbn [app].
    split; [reflexivity|]. intros f. split.
    + intros Hin.
      destruct (collect_sound _ _ _ _ Hin)
        as (names & rd & c & Hne & Hn & -> & Hl).
      exists names, rd, c. repeat split; try assumption.
      rewrite (stat_below _ _ _ _ Hd Hn). exact Hl.
    + intros (names & rd & c & Hne & Hn & -> & Hst).
      rewrite (stat_below _ _ _ _ Hd Hn) in Hst.
      apply (collect_complete _ _ _ _ rd c); [lia | exact Hn | exact Hst].
Qed.

Lemma addFiles_lists_the_files_below_witness :
  exists files,
    addFiles [] (temp_dir ex_spec) ex_world = (Ok files, ex_world)
    /\ In (below (temp_dir ex_spec) ["video"; "frame001.png"]) files.
Proof.
  destruct (addFiles_lists_the_files_below ex_world (temp_dir ex_spec) ex_content
              eq_refl) as (Hreturns & Hlisted).
  destruct (Hreturns eq_refl) as (files & Hrun).
  exists files. split; [exact Hrun|].
  destruct (Hlisted files ex_world Hrun) as (_ & Hfiles).
  apply Hfiles. exists ["video"; "frame001.png"], true, (Bytes "PNG").
  repeat split; try discriminate.
  repeat constructor.
Defined.

(** X8. In a directory tree where the names in each directory are distinct,
    a list that [addFiles] returns holds no file twice. *)
Theorem addFiles_lists_no_file_twice (w w' : World) (directory : path)
  (es : list (string * node)) (files : list path) :
  stat w directory = Some (Dir es) ->
  well_formed (Dir es) = true ->
  addFiles [] directory w = (Ok files, w') ->
  List.NoDup files.
Proof.
  intros Hd Hwf Hrun.
  destruct (addFiles_returned _ _ _ _ _ Hrun) as (_ & es' & Hd' & ->).
  rewrite Hd in Hd'. inversion Hd'; subst es'. cbn [app].
  apply collect_NoDup. exact Hwf.
Qed.

Lemma addFiles_lists_no_file_twice_witness :
  List.NoDup [ex_file "commands.txt"; ex_file "video.mp4"; ex_file "rewards.txt"].
Proof.
  apply (addFiles_lists_no_file_twice ex_world_partial ex_world_partial
           (temp_dir ex_spec) ex_content_partial); reflexivity.
Defined.

(** ** The names [addFile] gives *)

(** X9. A name [addFile] gives inside the archive never holds a backslash,
    on any platform and for any path. *)
Theorem archive_name_has_no_backslash (o : platform) (p : path) (name : string) :
  file_name_in_archive o p = Some name ->
  has_char "\" name = false.
Proof.
  unfold file_name_in_archive, substr.
  set (s := replace _ _ _).
  destruct (String.length s <? 2)%nat; [discriminate|].
  intros H. inversion H. apply has_char_substring.
  apply has_char_replace. discriminate.
Qed.

Lemma archive_name_has_no_backslash_witness :
  has_char "\" "mission_records/u1/video.mp4" = false.
Proof.
  apply (archive_name_has_no_backslash Windows
           (Path "" ["."; "mission_records"; "u1"; "video.mp4"])).
  reflexivity.
Defined.
(** X10. For a path that starts with ["."] and goes on with ordinary names,
    as the paths below a temporary directory [./...] are, the name inside
    the archive is the rest of the path with slashes between the names, on
    either platform: the two characters [substr] cuts are the leading
    [./]. *)
Theorem archive_name_of_dot_path (o : platform) (p : path) (rest : list string) :
  elements p = dot :: rest ->
  rest <> [] ->
  forallb plain_name rest = true ->
  file_name_in_archive o p = Some (join_elements "/" rest).
Proof.
  intros Hel Hne Hrest.
  rewrite (file_name_joined o p dot rest Hel eq_refl Hrest).
  destruct rest as [|r rest]; [congruence|].
  change (join_elements "/" (dot :: r :: rest))
    with (String "." (String "/" (join_elements "/" (r :: rest)))).
  unfold substr. cbn [String.length Nat.ltb Nat.leb String.substring].
  rewrite substring_all by lia. reflexivity.
Qed.

Lemma archive_name_of_dot_path_witness :
  file_name_in_archive Windows
    (Path "" ["."; "mission_records"; "u1"; "video"; "frame001.png"])
  = Some "mission_records/u1/video/frame001.png".
Proof.
  apply (archive_name_of_dot_path Windows _
           ["mission_records"; "u1"; "video"; "frame001.png"]);
    [reflexivity | discriminate | reflexivity].
Defined.

(** X11. For a path that starts with an ordinary name of two characters or
    more, the name inside the archive lacks the first two characters of that
    name: [addFile] cuts two characters whatever they are. *)
Theorem archive_name_loses_two_characters (o : platform) (p : path)
  (e0 : string) (rest : list string) :
  elements p = e0 :: rest ->
  rest <> [] ->
  (2 <= String.length e0)%nat ->
  has_char "\" e0 = false ->
  forallb plain_name rest = true ->
  file_name_in_archive o p
  = Some (String.substring 2 (String.length e0) e0
          +:+ "/" +:+ join_elements "/" rest).
Proof.
  intros Hel Hne Hlen He0 Hrest.
  rewrite (file_name_joined o p e0 rest Hel He0 Hrest).
  destruct rest as [|r rest]; [congruence|].
  change (join_elements "/" (e0 :: r :: rest))
    with (e0 +:+ "/" +:+ join_elements "/" (r :: rest)).
  generalize ("/" +:+ join_elements "/" (r :: rest)) as t. intros t.
  destruct e0 as [|a [|b e0]]; try (simpl in Hlen; lia).
  unfold substr. simpl.
  rewrite !substring_all; [reflexivity | lia | lia].
Qed.

Lemma archive_name_loses_two_characters_witness :
  file_name_in_archive Posix (Path "/" ["tmp"; "rec"; "video.mp4"])
  = Some "p/rec/video.mp4".
Proof.
  apply (archive_name_loses_two_characters Posix _ "tmp" ["rec"; "video.mp4"]);
    [reflexivity | discriminate | simpl; lia | reflexivity | reflexivity].
Defined.

(** X12. A file whose path is a single name of fewer than two characters
    cannot be added: [substr(2, size)] is out of range, [addFile] throws a
    [std::exception] and leaves the archive and the world as they are,
    whether the file can be read or not. *)
Theorem addFile_short_name_throws (archive : Tar) (p : path) (name : string)
  (w : World) :
  elements p = [name] ->
  (String.length name < 2)%nat ->
  exists what, addFile archive p w = (Throw (StdException what), w).
Proof.
  intros Hel Hlen.
  assert (file_name_in_archive (os w) p = None) as Hnone.
  { unfold file_name_in_archive, relative_path.
    rewrite Hel, (normalize_plain (os w) "" name [] eq_refl).
    change (path_string (os w) (Path "" [name])) with name.
    unfold substr. rewrite length_replace.
    apply Nat.ltb_lt in Hlen. rewrite Hlen. reflexivity. }
  rewrite addFile_run. unfold member_of. rewrite Hnone. eauto.
Qed.

Lemma addFile_short_name_throws_witness :
  exists what,
    addFile [] (Path "/" ["a"]) ex_world = (Throw (StdException what), ex_world).
Proof.
  apply (addFile_short_name_throws [] (Path "/" ["a"]) "a" ex_world);
    [reflexivity | simpl; lia].
Defined.

(** ** Moves, once more *)






(** X14. Two sessions can be swapped the way [std::swap] does it, by a move
    construction into a temporary object and two move assignments: the
    sessions are exchanged, nothing is closed, removed or printed, and the
    destructor of the temporary object does nothing. *)
Theorem swap_by_moves (a b t : nat) (w : World) (ra rb : MissionRecord) :
  a <> b -> t <> a -> t <> b ->
  heap w !! a = Some ra ->
  heap w !! b = Some rb ->
  exists w3,
    (MissionRecord_move_ctor t a ;;;
     operator_assign a b ;;;
     operator_assign b t) w = (Ok tt, w3)
    /\ heap w3 !! a = Some rb
    /\ heap w3 !! b = Some ra
    /\ fs w3 = fs w /\ fs_calls w3 = fs_calls w /\ cout w3 = cout w
    /\ MissionRecord_dtor t w3 = (Ok tt, w3).
Proof.
  intros Hab Hta Htb Ha Hb.
  assert (a <> t) as Hat by congruence.
  assert (b <> t) as Hbt by congruence.
  assert (b <> a) as Hba by congruence.
  erewrite bind_ok by (apply (move_ctor_run a t w ra); assumption).
  set (w1 := set_heap _ w).
  assert (heap w1 !! b = Some rb) as Hb1.
  { subst w1. cbn [heap set_heap].
    rewrite !lookup_insert_ne by congruence. exact Hb. }
  assert (heap w1 !! a = Some (set_spec default_spec ra)) as Ha1.
  { subst w1. cbn [heap set_heap]. apply lookup_insert_eq. }
  assert (heap w1 !! t = Some ra) as Ht1.
  { subst w1. cbn [heap set_heap].
    rewrite lookup_insert_ne by congruence. apply lookup_insert_eq. }
  erewrite bind_ok by (apply (operator_assign_run b a w1 rb _ Hba Hb1 Ha1)).
  set (w2 := set_heap _ w1).
  assert (heap w2 !! t = Some ra) as Ht2.
  { subst w2. cbn [heap set_heap].
    rewrite !lookup_insert_ne by congruence. exact Ht1. }
  assert (heap w2 !! b = Some (set_spec default_spec rb)) as Hb2.
  { subst w2. cbn [heap set_heap]. apply lookup_insert_eq. }
  assert (heap w2 !! a = Some rb) as Ha2.
  { subst w2. cbn [heap set_heap].
    rewrite lookup_insert_ne by congruence. apply lookup_insert_eq. }
  rewrite (operator_assign_run t b w2 ra _ Htb Ht2 Hb2).
  eexists. split; [reflexivity|].
  set (w3 := set_heap _ w2).
  assert (heap w3 !! t = Some (set_spec default_spec ra)) as Ht3.
  { subst w3. cbn [heap set_heap]. apply lookup_insert_eq. }
  split.
  { subst w3. cbn [heap set_heap].
    rewrite !lookup_insert_ne by congruence. exact Ha2. }
  split.
  { subst w3. cbn [heap set_heap].
    rewrite lookup_insert_ne by congruence. apply lookup_insert_eq. }
  do 3 (split; [reflexivity|]).
  apply (dtor_inert t w3 _ Ht3). reflexivity.
Qed.

Lemma swap_by_moves_witness :
  exists w3,
    (MissionRecord_move_ctor 3 1 ;;;
     operator_assign 1 2 ;;;
     operator_assign 2 3) ex_world_pair = (Ok tt, w3)
    /\ heap w3 !! 1%nat = Some ex_record_second
    /\ heap w3 !! 2%nat = Some ex_record
    /\ fs w3 = fs ex_world_pair.
Proof.
  destruct (swap_by_moves 1 2 3 ex_world_pair ex_record ex_record_second)
    as (w3 & Hrun & Ha & Hb & Hfs & _);
    [discriminate | discriminate | discriminate | reflexivity | reflexivity |].
  exists w3. split; [exact Hrun|]. split; [exact Ha|].
  split; [exact Hb | exact Hfs].
Defined.

(** ** What is printed *)

Lemma archive_warnings_lines (w : World) (files : list path) :
  Forall2
    (fun f line =>
       exists what,
         line = "[warning] Unable to archive " +:+ path_string (os w) f
                +:+ ": " +:+ what)
    (List.filter (fun f => negb (can_add w f)) files) (archive_warnings w files).
Proof.
  induction files as [|f files IH]; [constructor|].
  cbn [List.filter archive_warnings flat_map]. unfold can_add at 1.
  destruct (member_of w f) as [m|]; cbn [negb app]; [exact IH|].
  constructor; [|exact IH].
  exists (add_failure w f). reflexivity.
Qed.

(** X15. Once [addFiles] has returned, [close] prints, whatever its end:
    for each file that could not be added, in the order of the list, the
    line [[warning] Unable to archive <path>: <what>]; then, when there were
    files and the destination could not be opened, the line
    [[warning] Unable to write recording to output file <destination>]. It
    prints nothing else and keeps what was printed before. *)
Theorem close_prints_one_warning_per_failure (this : nat) (w : World)
  (r : MissionRecord) (files : list path) :
  heap w !! this = Some r ->
  is_recording (spec r) = true ->
  is_closed r = false ->
  addFiles [] (temp_dir (spec r)) w = (Ok files, w) ->
  exists lines,
    cout (snd (close this w))
    = cout w ++ lines
      ++ (if (0 <? length files)%nat
             && negb (opens w (resolve (cwd w)
                                 (parse_path (os w) (destination (spec r)))))
          then ["[warning] Unable to write recording to output file "
                +:+ destination (spec r)]
          else [])
    /\ Forall2
         (fun f line =>
            exists what,
              line = "[warning] Unable to archive " +:+ path_string (os w) f
                     +:+ ": " +:+ what)
         (List.filter (fun f => negb (can_add w f)) files) lines
    /\ length lines = failures w files.
Proof.
  intros Hr Hrec Hcl Hfiles.
  exists (archive_warnings w files).
  pose proof (archive_warnings_lines w files) as Hlines.
  split; [apply close_warnings; assumption|]. split; [exact Hlines|].
  symmetry. apply (Forall2_length _ _ _ Hlines).
Qed.

Lemma close_prints_one_warning_per_failure_witness :
  exists lines,
    cout (snd (close 1 ex_world_partial)) = lines
    /\ Forall2
         (fun f line =>
            exists what,
              line = "[warning] Unable to archive " +:+ path_string Posix f
                     +:+ ": " +:+ what)
         [ex_file "video.mp4"] lines
    /\ length lines = 1%nat.
Proof.
  destruct (close_prints_one_warning_per_failure 1 ex_world_partial ex_record
              [ex_file "commands.txt"; ex_file "video.mp4"; ex_file "rewards.txt"]
              eq_refl eq_refl eq_refl eq_refl)
    as (lines & Hout & Hlines & Hlen).
  exists lines. split; [|split; [exact Hlines | exact Hlen]].
  rewrite Hout. apply app_nil_r.
Defined.

(** X16. The destructor of a recording session whose temporary directory
    is missing prints one line, which carries the message of [addFiles], and
    changes nothing else: no file-system call is made and the session stays
    unclosed. *)
Theorem dtor_logs_missing_directory (this : nat) (w : World) (r : MissionRecord) :
  heap w !! this = Some r ->
  is_recording (spec r) = true ->
  is_closed r = false ->
  node_exists (stat w (temp_dir (spec r))) = false ->
  exists w',
    MissionRecord_dtor this w = (Ok tt, w')
    /\ cout w'
       = cout w ++ ["Exception in closing of MissionRecord: "
                    +:+ "Attempt to write to non-existent directory: "
                    +:+ path_string (os w) (temp_dir (spec r))]
    /\ fs w' = fs w
    /\ fs_calls w' = fs_calls w
    /\ heap w' !! this = Some r.
Proof.
  intros Hr Hrec Hcl Hmiss.
  rewrite (dtor_open _ _ _ Hr Hcl), (close_missing _ _ _ Hr Hrec Hcl Hmiss).
  eexists. split; [reflexivity|]. repeat split. exact Hr.
Qed.

Lemma dtor_logs_missing_directory_witness :
  exists w',
    MissionRecord_dtor 1 ex_world_missing = (Ok tt, w')
    /\ cout w'
       = ["Exception in closing of MissionRecord: Attempt to write to non-existent directory: ./mission_records/u1"]
    /\ heap w' !! 1%nat = Some ex_record.
Proof.
  destruct (dtor_logs_missing_directory 1 ex_world_missing ex_record
              eq_refl eq_refl eq_refl eq_refl)
    as (w' & Hd & Hout & _ & _ & Hobj).
  exists w'. split; [exact Hd|]. split; [exact Hout | exact Hobj].
Defined.

(** ** The destination and the members, once more *)

(** X17. When the destination lies inside the temporary directory, the
    archive does not outlive [close]: after a [close] that returned there is
    nothing at the destination. *)
Theorem destination_inside_temp_dir_is_lost (this : nat) (w : World)
  (r : MissionRecord) :
  heap w !! this = Some r ->
  is_recording (spec r) = true ->
  is_closed r = false ->
  is_under (resolve (cwd w) (temp_dir (spec r)))
    (resolve (cwd w) (parse_path (os w) (destination (spec r)))) = true ->
  forall w',
    close this w = (Ok tt, w') ->
    lookup_node (fs w')
      (resolve (cwd w') (parse_path (os w') (destination (spec r)))) = None
    /\ archive_at w' (destination (spec r)) = None.
Proof.
  intros Hr Hrec' Hcl Hunder w' Hc.
  assert (lookup_node (fs w')
            (resolve (cwd w') (parse_path (os w') (destination (spec r))))
          = None) as Hnone.
  { close_cases Hr; try discriminate.
    - destruct Hidle; congruence.
    - replace w' with
        (closed_world this r (written_world (destination (spec r)) listed w))
        by congruence.
      destruct (closed_world_view this r (destination (spec r)) listed w)
        as (-> & -> & _ & -> & _).
      destruct (is_under_app _ _ Hunder) as (rest & ->).
      apply lookup_remove_node. exact Hloc. }
  split; [exact Hnone|]. unfold archive_at. rewrite Hnone. reflexivity.
Qed.

Lemma destination_inside_temp_dir_is_lost_witness :
  let r := {| is_closed := false;
              spec := {|
                is_recording := true;
                is_recording_mp4 := false;
                is_recording_observations := false;
                is_recording_rewards := false;
                is_recording_commands := true;
                mp4_path := "";
                mp4_bit_rate := 0;
                mp4_fps := 0;
                observations_path := "";
                rewards_path := "";
                commands_path := "./mission_records/u1/commands.txt";
                mission_init_path := "";
                temp_dir := Path "" ["."; "mission_records"; "u1"];
                destination := "mission_records/u1/out.tar.gz"
              |} |} in
  let w := {| os := Posix; cwd := [];
              fs := Dir [("mission_records",
                          Dir [("u1", Dir [("commands.txt",
                                            File true (Bytes "move 1"))])])];
              denied := [];
              fs_calls := []; cout := [];
              heap := {[ 1%nat := r ]} |} in
  In (OpenForWriting ["mission_records"; "u1"; "out.tar.gz"])
    (fs_calls (snd (close 1 w)))
  /\ archive_at (snd (close 1 w)) "mission_records/u1/out.tar.gz" = None.
Proof.
  intros r w. split; [left; reflexivity|].
  apply (destination_inside_temp_dir_is_lost 1 w r
           eq_refl eq_refl eq_refl eq_refl (snd (close 1 w)) eq_refl).
Defined.



(** ** What only reads the file system: lemmas *)














(** X19. Below a temporary directory [./d1/.../dk] a file reached through
    the names [n1 ... nm] is named [d1/.../dk/n1/.../nm] inside the archive:
    the names are relative to the directory the path of the temporary
    directory starts from, not to the temporary directory. *)
Theorem archive_name_below_dot_directory (o : platform) (directory : path)
  (dirs names : list string) :
  elements directory = dot :: dirs ->
  names <> [] ->
  forallb plain_name dirs = true ->
  forallb plain_name names = true ->
  file_name_in_archive o (below directory names)
  = Some (join_elements "/" (dirs ++ names)).
Proof. apply file_name_below_dot. Qed.

Lemma archive_name_below_dot_directory_witness :
  file_name_in_archive Posix (below (temp_dir ex_spec) ["logs"; "commands.txt"])
  = Some "mission_records/u1/logs/commands.txt".
Proof.
  apply (archive_name_below_dot_directory Posix (temp_dir ex_spec)
           ["mission_records"; "u1"] ["logs"; "commands.txt"]);
    [reflexivity | discriminate | reflexivity | reflexivity].
Defined.

(** X20. However many files fail and whatever the end of [close], the
    archive written to a destination that could be opened, outside the
    temporary directory, has one member for each file that could be added,
    in the order of the list, and none for the others: with N files listed
    and k failures it has N - k members. Each member holds the bytes of its
    file under the name [addFile] computes for it. *)
Theorem archive_has_a_member_per_added_file (this : nat) (w : World)
  (r : MissionRecord) (files : list path) :
  heap w !! this = Some r ->
  is_recording (spec r) = true ->
  is_closed r = false ->
  addFiles [] (temp_dir (spec r)) w = (Ok files, w) ->
  files <> [] ->
  opens w (resolve (cwd w) (parse_path (os w) (destination (spec r)))) = true ->
  is_under (resolve (cwd w) (temp_dir (spec r)))
    (resolve (cwd w) (parse_path (os w) (destination (spec r)))) = false ->
  exists members,
    archive_at (snd (close this w)) (destination (spec r)) = Some members
    /\ (length members + failures w files)%nat = length files
    /\ Forall2
         (fun f m =>
            file_name_in_archive (os w) f = Some (fst m)
            /\ stat w f = Some (File true (snd m)))
         (List.filter (can_add w) files) members.
Proof.
  intros Hr Hrec Hcl Hfiles Hne Hopen Hunder.
  exists (omap (member_of w) files).
  split; [apply close_archive; assumption|].
  split; [apply length_omap_members|].
  apply omap_members. intros f m _ Hm. apply (member_of_content _ _ _ Hm).
Qed.

Lemma archive_has_a_member_per_added_file_witness :
  exists members,
    archive_at (snd (close 1 ex_world_partial)) "out.tar.gz" = Some members
    /\ (length members + 1)%nat = 3%nat.
Proof.
  destruct (archive_has_a_member_per_added_file 1 ex_world_partial ex_record
              [ex_file "commands.txt"; ex_file "video.mp4"; ex_file "rewards.txt"]
              eq_refl eq_refl eq_refl eq_refl ltac:(discriminate)
              eq_refl eq_refl)
    as (members & Ha & Hlen & _).
  exists members. split; [exact Ha | exact Hlen].
Defined.
